(** * ATen native-function schema parser and QNNPACK wrapper generator

  A shallow embedding of [aten/src/ATen/native_parse.py] and of
  [aten/src/ATen/native/quantized/cpu/qnnpack/generate-wrapper.py],
  with the properties their specification states about them.

  Conventions of the embedding.
  - A Python [str] is a [string]; its characters are the code points
    0..255.  Python 3 semantics of the builtins is followed, with the
    defaults of CPython 3.11: [int] reads at most 4300 decimal digits.
  - A raised exception is a value of [exn]; a function that can raise
    returns [result A].  [assert] statements are taken to be enabled.
  - A [dict] with a fixed set of optional keys is a record whose optional
    keys are [option] fields (a boolean key that is only ever set to
    [True] is a [bool] field, absent = [false]).
  - The argument dictionaries are shared between the lists [arguments]
    and [output_arguments] of [run]; the sharing is modelled with the
    list [arguments] as the store and [output_arguments] as positions
    into it. *)

From Stdlib Require Import String Ascii ZArith List Bool Lia DecimalString.
From stdpp Require Import gmap strings list fin_maps.

Local Open Scope string_scope.

(** ** Python string builtins *)

Module PyStr.

(** The newline character as a text. *)
Definition newline : string := String "010" EmptyString.

(** [s.startswith(p)] *)
Fixpoint startswith (s p : string) : bool :=
  match p, s with
  | EmptyString, _ => true
  | String a p', String b s' => Ascii.eqb a b && startswith s' p'
  | String _ _, EmptyString => false
  end.

(** [s.endswith(p)]: some suffix of [s] is [p]. *)
Fixpoint endswith (s p : string) : bool :=
  String.eqb s p ||
  match s with
  | EmptyString => false
  | String _ s' => endswith s' p
  end.

(** [p in s] for strings. *)
Fixpoint contains (s p : string) : bool :=
  startswith s p ||
  match s with
  | EmptyString => false
  | String _ s' => contains s' p
  end.

(** [s[n:]] *)
Fixpoint drop (n : nat) (s : string) : string :=
  match n, s with
  | O, _ => s
  | S _, EmptyString => EmptyString
  | S k, String _ s' => drop k s'
  end.

(** [s[:n]] *)
Fixpoint take (n : nat) (s : string) : string :=
  match n, s with
  | O, _ => EmptyString
  | S _, EmptyString => EmptyString
  | S k, String c s' => String c (take k s')
  end.

(** [s[0]], which raises IndexError on the empty string. *)
Definition first (s : string) : option ascii :=
  match s with
  | EmptyString => None
  | String c _ => Some c
  end.

(** [s[-1]], which raises IndexError on the empty string. *)
Fixpoint last (s : string) : option ascii :=
  match s with
  | EmptyString => None
  | String c EmptyString => Some c
  | String _ s' => last s'
  end.

(** [s[:-1]] *)
Fixpoint init (s : string) : string :=
  match s with
  | EmptyString => EmptyString
  | String _ EmptyString => EmptyString
  | String c s' => String c (init s')
  end.

(** [s[1:-1]] *)
Definition inner (s : string) : string := init (drop 1 s).

(** [c.isspace()] for the code points below 256. *)
Definition isspace (c : ascii) : bool :=
  let n := nat_of_ascii c in
  (((9 <=? n) && (n <=? 13)) || ((28 <=? n) && (n <=? 32))
   || (n =? 133) || (n =? 160))%nat.

(** [s.lstrip()] *)
Fixpoint lstrip (s : string) : string :=
  match s with
  | EmptyString => EmptyString
  | String c s' => if isspace c then lstrip s' else s
  end.

(** [s.rstrip()] *)
Fixpoint rstrip (s : string) : string :=
  match s with
  | EmptyString => EmptyString
  | String c s' =>
      let r := rstrip s' in
      if isspace c && String.eqb r EmptyString then EmptyString
      else String c r
  end.

(** [s.strip()] *)
Definition strip (s : string) : string := rstrip (lstrip s).

(** [s.rstrip(c)] for a one-character set [c]. *)
Fixpoint rstrip_char (c : ascii) (s : string) : string :=
  match s with
  | EmptyString => EmptyString
  | String a s' =>
      let r := rstrip_char c s' in
      if Ascii.eqb a c && String.eqb r EmptyString then EmptyString
      else String a r
  end.

(** The scan of [s.split(sep)] for a non-empty [sep]: [cur] is the piece
    being collected, [skip] counts the characters of a separator just
    recognised that are still to be passed over. *)
Fixpoint split_go (sep : string) (skip : nat) (cur s : string) : list string :=
  match s with
  | EmptyString => [cur]
  | String c s' =>
      match skip with
      | S k => split_go sep k cur s'
      | O =>
          if startswith s sep
          then cur :: split_go sep (String.length sep - 1) EmptyString s'
          else split_go sep 0 (cur +:+ String c EmptyString) s'
      end
  end.

(** [s.split(sep)], every occurrence, left to right, not overlapping. *)
Definition split (s sep : string) : list string := split_go sep 0 EmptyString s.

(** [s.partition(sep)] when [sep] occurs: the text before its first
    occurrence and the text after it. *)
Fixpoint partition (s sep : string) : option (string * string) :=
  if startswith s sep then Some (EmptyString, drop (String.length sep) s)
  else
    match s with
    | EmptyString => None
    | String c s' =>
        match partition s' sep with
        | Some (a, b) => Some (String c a, b)
        | None => None
        end
    end.

(** [s.split(sep, 1)] *)
Definition split1 (s sep : string) : list string :=
  match partition s sep with
  | Some (a, b) => [a; b]
  | None => [s]
  end.

(** The last occurrence of the character [c] in [s]. *)
Fixpoint rpartition_char (s : string) (c : ascii) : option (string * string) :=
  match s with
  | EmptyString => None
  | String a s' =>
      match rpartition_char s' c with
      | Some (x, y) => Some (String a x, y)
      | None => if Ascii.eqb a c then Some (EmptyString, s') else None
      end
  end.

(** [s.rsplit(c, 1)] for a one-character separator. *)
Definition rsplit1 (s : string) (c : ascii) : list string :=
  match rpartition_char s c with
  | Some (a, b) => [a; b]
  | None => [s]
  end.

(** The text of [s] before its first newline: the part a regular
    expression's [.] can run over from the start of [s]. *)
Fixpoint first_line (s : string) : string :=
  match s with
  | EmptyString => EmptyString
  | String c s' => if Ascii.eqb c "010" then EmptyString else String c (first_line s')
  end.

(** Position of the last [c] in [s]. *)
Fixpoint rindex (s : string) (c : ascii) : option nat :=
  match s with
  | EmptyString => None
  | String a s' =>
      match rindex s' c with
      | Some i => Some (S i)
      | None => if Ascii.eqb a c then Some 0 else None
      end
  end.

Definition isdigit (c : ascii) : bool :=
  let n := nat_of_ascii c in ((48 <=? n) && (n <=? 57))%nat.

(** The longest prefix of decimal digits and the rest. *)
Fixpoint span_digits (s : string) : string * string :=
  match s with
  | EmptyString => (EmptyString, EmptyString)
  | String c s' =>
      if isdigit c then let '(d, r) := span_digits s' in (String c d, r)
      else (EmptyString, s)
  end.

(** Value of a string of decimal digits, most significant first. *)
Fixpoint digits_value (acc : N) (s : string) : N :=
  match s with
  | EmptyString => acc
  | String c s' => digits_value (10 * acc + (N_of_ascii c - 48))%N s'
  end.

End PyStr.


(** ** Exceptions and results *)

(** The exceptions the two programs raise, one constructor per raising
  site (line numbers are those of [native_parse.py]). *)
Inductive exn : Type :=
| RuntimeError_use_True            (* 43: "Please use True and not true." *)
| RuntimeError_use_False           (* 46: "Please use False and not false." *)
| RuntimeError_out_variant (func_name : string)
                                   (* 100: "... suffixed with _out MUST be
                                      declared with only the function variant" *)
| AssertionError_kwarg_only        (* 114: assert not kwarg_only *)
| AssertionError_one_type          (* 140: assert len(typ) == 1 *)
| AssertionError_self_mutable      (* 166: "needs to annotate Tensor argument
                                      named self as mutable." *)
| AssertionError_annotation_match  (* 169: "annotations ... need to match
                                      between input and correponding output." *)
| AssertionError_name_match        (* 171 *)
| AssertionError_type_match        (* 172 *)
| AssertionError_found_self        (* 173: "needs Tensor argument named self." *)
| AssertionError_return_mutable    (* 193: "Return Tensor ... flagged as inplace
                                      needs to be annotated as mutable" *)
| Exception_expected_return        (* 243: 'Expected return declaration' *)
| AssertionError_closing_paren     (* 245: "Expecting closing ) for ..." *)
| ValueError_unpack                (* a sequence unpacked into the wrong
                                      number of names: 118, 241, 244 *)
| ValueError_int                   (* 146: int() of a text of more digits
                                      than it reads *)
| IndexError                       (* an index out of range: 82, 169, 181,
                                      230, 245 *)
| TypeError_not_iterable           (* 215, 216 *)
| FileExistsError (path : string)  (* os.makedirs / os.mkdir *)
| NotADirectoryError (path : string)
| IsADirectoryError (path : string)
| FileNotFoundError (path : string).

Inductive result (A : Type) : Type :=
| Ok (a : A)
| Raise (e : exn).
Arguments Ok {A} a.
Arguments Raise {A} e.

Definition bind {A B : Type} (r : result A) (k : A -> result B) : result B :=
match r with
| Ok a => k a
| Raise e => Raise e
end.

Notation "'let*' x ':=' r 'in' k" := (bind r (fun x => k))
(at level 10, x pattern, r at level 100, k at level 200).

(** [assert b, e] *)
Definition assert (b : bool) (e : exn) : result unit :=
if b then Ok tt else Raise e.

(** Whether a computation returned, and what it returned ([d] if it
    raised). *)
Definition is_Ok {A : Type} (r : result A) : bool :=
  match r with
  | Ok _ => true
  | Raise _ => false
  end.

Definition from_Ok {A : Type} (d : A) (r : result A) : A :=
  match r with
  | Ok a => a
  | Raise _ => d
  end.

(** The failure modes the specification names, and the exceptions of the
  parser each of them stands for. *)
Inductive SchemaError : Type :=
| MissingReturnArrow
| UnterminatedArgumentList
| DeprecatedLiteral
| DuplicateKeywordMarker
| InPlaceSelfMissing
| InPlaceAnnotationMismatch
| OutVariantWrongVariant.

Definition schema_error (e : exn) : option SchemaError :=
match e with
| Exception_expected_return => Some MissingReturnArrow
| AssertionError_closing_paren => Some UnterminatedArgumentList
| RuntimeError_use_True | RuntimeError_use_False => Some DeprecatedLiteral
| AssertionError_kwarg_only => Some DuplicateKeywordMarker
| AssertionError_self_mutable | AssertionError_found_self => Some InPlaceSelfMissing
| AssertionError_annotation_match => Some InPlaceAnnotationMismatch
| RuntimeError_out_variant _ => Some OutVariantWrongVariant
| _ => None
end.

(** [r] is a failure that the specification calls [k]. *)
Definition fails_with {A : Type} (r : result A) (k : SchemaError) : Prop :=
exists e, r = Raise e /\ schema_error e = Some k.

(** ** The builtins [int] and [float] on strings *)

Module PyNum.
Import PyStr.

(** The white space [int] and [float] skip at both ends. *)
Definition isspace_num (c : ascii) : bool :=
  let n := nat_of_ascii c in
  (((9 <=? n) && (n <=? 13)) || (n =? 32) || (n =? 133) || (n =? 160))%nat.

Fixpoint lstrip_num (s : string) : string :=
  match s with
  | EmptyString => EmptyString
  | String c s' => if isspace_num c then lstrip_num s' else s
  end.

Fixpoint rstrip_num (s : string) : string :=
  match s with
  | EmptyString => EmptyString
  | String c s' =>
      let r := rstrip_num s' in
      if isspace_num c && String.eqb r EmptyString then EmptyString
      else String c r
  end.

Definition is_sign (c : ascii) : bool := Ascii.eqb c "+" || Ascii.eqb c "-".

(** Digits with single underscores between them; [after_digit] tells
    whether the character before was a digit. *)
Fixpoint int_body (acc : N) (after_digit : bool) (s : string) : option N :=
  match s with
  | EmptyString => if after_digit then Some acc else None
  | String c s' =>
      if isdigit c then int_body (10 * acc + (N_of_ascii c - 48))%N true s'
      else if Ascii.eqb c "_" && after_digit then int_body acc false s'
      else None
  end.

(** The number of digits above which [int] refuses a decimal text: the
    default of [sys.set_int_max_str_digits] (CPython 3.11, and the
    security releases of 3.7 to 3.10). *)
Definition int_max_str_digits : N := 4300.

(** The digits of a text, the underscores between them not counted. *)
Fixpoint count_digits (s : string) : N :=
  match s with
  | EmptyString => 0
  | String c s' => ((if isdigit c then 1 else 0) + count_digits s')%N
  end.

(** The digits of [int(s)], after the sign: they are read when there are
    at most [int_max_str_digits] of them, leading zeros included. *)
Definition int_digits (s : string) : option N :=
  if (int_max_str_digits <? count_digits s)%N then None
  else int_body 0 false s.

(** [int(s)]: [None] stands for ValueError. *)
Definition int (s : string) : option Z :=
  match rstrip_num (lstrip_num s) with
  | EmptyString => None
  | String c s' as t =>
      if Ascii.eqb c "-" then option_map (fun n => (- Z.of_N n)%Z) (int_digits s')
      else if Ascii.eqb c "+" then option_map Z.of_N (int_digits s')
      else option_map Z.of_N (int_digits t)
  end.

(** What is left of [s] after a group of digits with single underscores
    between them; [None] when [s] does not start with a digit. *)
Fixpoint skip_digits (s : string) : string :=
  match s with
  | EmptyString => EmptyString
  | String c s' =>
      if isdigit c then skip_digits s'
      else if Ascii.eqb c "_" then
        match s' with
        | String d _ => if isdigit d then skip_digits s' else s
        | EmptyString => s
        end
      else s
  end.

Definition digitpart (s : string) : option string :=
  match s with
  | String c _ => if isdigit c then Some (skip_digits s) else None
  | EmptyString => None
  end.

Definition drop_sign (s : string) : string :=
  match s with
  | String c s' => if is_sign c then s' else s
  | EmptyString => s
  end.

(** Nothing, or an exponent [e] / [E], an optional sign and digits. *)
Definition exponent_opt (s : string) : bool :=
  match s with
  | EmptyString => true
  | String c s' =>
      (Ascii.eqb c "e" || Ascii.eqb c "E") &&
      match digitpart (drop_sign s') with
      | Some EmptyString => true
      | _ => false
      end
  end.

Definition lower (c : ascii) : ascii :=
  let n := nat_of_ascii c in
  if ((65 <=? n) && (n <=? 90))%nat then ascii_of_nat (n + 32) else c.

Fixpoint lowercase (s : string) : string :=
  match s with
  | EmptyString => EmptyString
  | String c s' => String (lower c) (lowercase s')
  end.

Definition float_body (s : string) : bool :=
  let l := lowercase s in
  if String.eqb l "inf" || String.eqb l "infinity" || String.eqb l "nan" then true
  else
    match digitpart s with
    | Some r1 =>
        match r1 with
        | String "." r2 =>
            match digitpart r2 with
            | Some r3 => exponent_opt r3
            | None => exponent_opt r2
            end
        | _ => exponent_opt r1
        end
    | None =>
        match s with
        | String "." r2 =>
            match digitpart r2 with
            | Some r3 => exponent_opt r3
            | None => false
            end
        | _ => false
        end
    end.

(** [float(s)]: [None] stands for ValueError; the number read is given
    by its literal, the text of [s] without the surrounding white
    space. *)
Definition float (s : string) : option string :=
  let t := rstrip_num (lstrip_num s) in
  if float_body (drop_sign t) then Some t else None.

End PyNum.


(** ** [native_parse.py] *)

Module NativeParse.
Import PyStr.

(** *** Data *)

(** A value read from the YAML document. *)
#[local] Unset Elimination Schemes.
Inductive yaml : Type :=
  | YNull
  | YBool (b : bool)
  | YInt (n : Z)
  | YStr (s : string)
  | YSeq (items : list yaml)
  | YMap (items : list (string * yaml)).
#[local] Set Elimination Schemes.

(** One record of the YAML document, the [func] of [run]: the key
    ['func'] is required and a string; ['name'], when present, is a
    string; the other keys are read with [func.get] and copied. *)
Record func_record : Type := {
  func : string;
  f_name : option string;
  f_variants : option yaml;
  f_requires_tensor : option yaml;
  f_matches_jit_signature : option yaml;
  f_cpu_half : option yaml;
  f_deprecated : option yaml;
  f_device_guard : option yaml;
  f_arguments : option yaml;
  f_dispatch : option yaml;
  f_python_module : option yaml
}.

(** A record that has the key ['func'] only. *)
Definition just_func (s : string) : func_record :=
  {| func := s; f_name := None; f_variants := None; f_requires_tensor := None;
     f_matches_jit_signature := None; f_cpu_half := None; f_deprecated := None;
     f_device_guard := None; f_arguments := None; f_dispatch := None;
     f_python_module := None |}.

(** A record with the keys ['func'] and ['variants']. *)
Definition func_with_variants (s : string) (v : yaml) : func_record :=
  {| func := s; f_name := None; f_variants := Some v; f_requires_tensor := None;
     f_matches_jit_signature := None; f_cpu_half := None; f_deprecated := None;
     f_device_guard := None; f_arguments := None; f_dispatch := None;
     f_python_module := None |}.

(** What [parse_default] returns. A float is given by its literal. *)
Inductive default_value : Type :=
  | DBool (b : bool)
  | DInt (n : Z)
  | DFloat (literal : string)
  | DStr (s : string).

(** The dictionary [argument_dict] of [parse_arguments]; ['field_name']
    is the key [propagate_field_names] adds. *)
Record Argument : Type := {
  a_type : string;
  a_name : string;
  a_is_nullable : bool;
  a_size : option N;
  a_default : option default_value;
  a_output : bool;
  a_kwarg_only : bool;
  a_annotation : option string;
  a_field_name : option string
}.

(** The dictionary [argument_dict] of [parse_return_arguments]; its key
    ['output'] is always [True]. *)
Record Return : Type := {
  r_type : string;
  r_name : string;
  r_field_name : option string;
  r_annotation : option string
}.

(** An element of [declaration['return']]: a dictionary made by
    [parse_return_arguments] or one made by [parse_arguments]. *)
Inductive return_entry : Type :=
  | ReturnSlot (r : Return)
  | OutputArgument (a : Argument).

(** [declaration['arguments']]: the parsed arguments, or the value of the
    record's key ['arguments']. *)
Inductive declared_arguments : Type :=
  | Parsed (arguments : list Argument)
  | Overridden (v : yaml).

Record Declaration : Type := {
  d_mode : string;
  d_schema_string : string;
  d_name : string;
  d_inplace : bool;
  d_return : list return_entry;
  d_variants : yaml;
  d_requires_tensor : yaml;
  d_matches_jit_signature : yaml;
  d_cpu_half : yaml;
  d_deprecated : yaml;
  d_device_guard : yaml;
  d_arguments : declared_arguments;
  d_type_method_definition_dispatch : yaml;
  d_python_module : yaml;
  d_aten_sparse : bool
}.

(** *** Functions *)

Definition temp_type_translations (typ : string) : string :=
  if String.eqb typ "Tensor[]" then "TensorList"
  else if String.eqb typ "int[]" then "IntList"
  else if String.eqb typ "int" then "int64_t"
  else if String.eqb typ "float" then "double"
  else typ.

(** [re.match(r'\[.*\]', s)]: an opening bracket, then a closing bracket
    somewhere before the first newline. *)
Definition match_bracket_list (s : string) : bool :=
  startswith s "[" && contains (first_line (drop 1 s)) "]".

Definition parse_default (s : string) : result default_value :=
  if String.eqb s "True" then Ok (DBool true)
  else if String.eqb s "False" then Ok (DBool false)
  else if String.eqb s "true" then Raise RuntimeError_use_True
  else if String.eqb s "false" then Raise RuntimeError_use_False
  else if String.eqb s "nullptr" then Ok (DStr s)
  else if String.eqb s "[]" then Ok (DStr "{}")
  else if match_bracket_list s then Ok (DStr ("{" +:+ inner s +:+ "}"))
  else if String.eqb s "None" then Ok (DStr "c10::nullopt")
  else if String.eqb s "Mean" then Ok (DStr "Reduction::Mean")
  else
    match PyNum.int s with
    | Some n => Ok (DInt n)
    | None =>
        match PyNum.float s with
        | Some x => Ok (DFloat x)
        | None => Ok (DStr s)
        end
    end.

Definition sanitize_type (typ : string) : string :=
  if String.eqb typ "Generator*" then "Generator *" else typ.

Definition sanitize_types (types : string) : result (list string) :=
  match first types, last types with
  | Some c0, Some cl =>
      if Ascii.eqb c0 "(" && Ascii.eqb cl ")"
      then Ok (map (fun x => sanitize_type (strip x)) (split (inner types) ","))
      else Ok [sanitize_type types]
  | _, _ => Raise IndexError
  end.

(** The [re.match] of [get_annotation]: a first group that is [Tensor]
    and any characters after it, an opening parenthesis, a second group
    of one character or more, a closing parenthesis. The two groups do
    not pass a newline, so the match lies in the first line [l] of [t].
    Both are greedy: the closing parenthesis is the last one of [l], at [j], and
    the opening one is the last that leaves a character between them,
    the last one of [l[:j-1]], at [i]. The groups are [l[:i]] and
    [l[i+1:j]]. *)
Definition get_annotation (t : string) : string * option string :=
  let l := first_line t in
  if startswith l "Tensor" then
    match rindex l ")" with
    | Some j =>
        match rindex (take (j - 1) l) "(" with
        | Some i => (take i l, Some (take (j - i - 1) (drop (i + 1) l)))
        | None => (t, None)
        end
    | None => (t, None)
    end
  else (t, None).

(** [re.match(r'int\[(\d+)\]', t)]: the first group of the match, the
    digits between the brackets. *)
Definition match_int_size (t : string) : option string :=
  if startswith t "int[" then
    let '(d, r) := span_digits (drop 4 t) in
    if negb (String.eqb d EmptyString) && startswith r "]"
    then Some d
    else None
  else None.

(** The truth value of [annotation and annotation.endswith("!")]. *)
Definition is_mutable (annotation : option string) : bool :=
  match annotation with
  | Some a => negb (String.eqb a EmptyString) && endswith a "!"
  | None => false
  end.

(** [func_decl.get('variants', []) not in [[], 'function', ['function']]] *)
Definition variants_not_function_only (func_decl : func_record) : bool :=
  match f_variants func_decl with
  | None => false
  | Some (YSeq []) => false
  | Some (YStr s) => negb (String.eqb s "function")
  | Some (YSeq [YStr s]) => negb (String.eqb s "function")
  | Some _ => true
  end.

(** Lines 127-137: the name and the default of an argument whose type is
    [t] and whose text after the type is [name]. The test ['=' in name]
    and [name.split('=', 1)] are one [partition]: [ns0] and [ns1] are the
    text before and after the first ['=']. *)
Definition name_and_default (t name : string)
  : result (string * option default_value) :=
  match partition name "=" with
  | Some (ns0, ns1) =>
      let ns1 := if String.eqb t "Tensor?" && String.eqb ns1 "None" then "[]" else ns1 in
      let ns1 := if String.eqb t "Generator*" && String.eqb ns1 "None" then "nullptr" else ns1 in
      let* d := parse_default ns1 in
      Ok (ns0, Some d)
  | None => Ok (name, None)
  end.

(** Lines 121-125: the type of an argument without its annotation, and
    the annotation; [Generator?] becomes [Generator*]. *)
Definition annotated_type (t : string) : string * option string :=
  let '(t, annotation) := get_annotation t in
  (if String.eqb t "Generator?" then "Generator*" else t, annotation).

(** Lines 118-157, the body of the loop of [parse_arguments] for a piece
    that is not the separator: [t] and [name] are its two parts. The
    size of an [int[N]] is [int] of digits without a sign, a natural
    number. *)
Definition parse_argument (is_out_fn : bool) (func_return : list Return)
    (kwarg_only : bool) (arg_idx : nat) (t name : string) : result Argument :=
  let '(t, annotation) := annotated_type t in
  let* (name, default) := name_and_default t name in
  let* typ := sanitize_types t in
  match typ with
  | [typ0] =>
      let type := rstrip_char "?" typ0 in
      let is_nullable := endswith typ0 "?" in
      let* (type, size) :=
        match match_int_size type with
        | Some digits =>
            match PyNum.int digits with
            | Some n => Ok ("IntList", Some (Z.to_N n))
            | None => Raise ValueError_int
            end
        | None => Ok (type, None)
        end in
      Ok {| a_type := temp_type_translations type;
            a_name := name;
            a_is_nullable := is_nullable;
            a_size := size;
            a_default := default;
            a_output := is_out_fn && (arg_idx <? length func_return)%nat;
            a_kwarg_only := kwarg_only;
            a_annotation := annotation;
            a_field_name := None |}
  | _ => Raise AssertionError_one_type
  end.

(** Lines 111-158: the loop over [enumerate(args.split(', '))], from the
    piece number [arg_idx] on; [kwarg_only] and [arguments] are the
    loop's variables. *)
Fixpoint parse_arguments_loop (is_out_fn : bool) (func_return : list Return)
    (arg_idx : nat) (pieces : list string) (kwarg_only : bool)
    (arguments : list Argument) : result (list Argument) :=
  match pieces with
  | [] => Ok arguments
  | arg :: pieces' =>
      match map strip (rsplit1 arg " ") with
      | [one] =>
          if String.eqb one "*" then
            let* _ := assert (negb kwarg_only) AssertionError_kwarg_only in
            parse_arguments_loop is_out_fn func_return (S arg_idx) pieces' true arguments
          else Raise ValueError_unpack
      | [t; name] =>
          let* a := parse_argument is_out_fn func_return kwarg_only arg_idx t name in
          parse_arguments_loop is_out_fn func_return (S arg_idx) pieces'
            kwarg_only (arguments ++ [a])
      | _ => Raise ValueError_unpack
      end
  end.

(** Lines 166-172: the assertions on an argument named [self], found at
    position [arg_idx] of [arguments]. *)
Definition check_self (func_return : list Return) (arg_idx : nat)
    (argument : Argument) : result unit :=
  let* _ := assert (is_mutable (a_annotation argument)) AssertionError_self_mutable in
  match func_return !! arg_idx with
  | None => Raise IndexError
  | Some r =>
      let* _ := assert (bool_decide (a_annotation argument = r_annotation r))
                  AssertionError_annotation_match in
      let* _ := assert (String.eqb (a_name argument) (r_name r))
                  AssertionError_name_match in
      assert (String.eqb (a_type argument) (r_type r)) AssertionError_type_match
  end.

(** Lines 164-172: the loop over [enumerate(arguments)]; the result is
    [found_self]. *)
Fixpoint find_self (func_return : list Return) (arg_idx : nat)
    (arguments : list Argument) (found_self : bool) : result bool :=
  match arguments with
  | [] => Ok found_self
  | argument :: rest =>
      if String.eqb (a_name argument) "self" then
        let* _ := check_self func_return arg_idx argument in
        find_self func_return (S arg_idx) rest true
      else find_self func_return (S arg_idx) rest found_self
  end.

(** [inplace and len(func_return) > 0 and func_return[0]['type'] != "void"] *)
Definition returns_alias (inplace : bool) (func_return : list Return) : bool :=
  inplace &&
  match func_return with
  | [] => false
  | r0 :: _ => negb (String.eqb (r_type r0) "void")
  end.

Definition parse_arguments (args : string) (func_decl : func_record)
    (func_name : string) (func_return : list Return) (inplace : bool)
  : result (list Argument) :=
  let is_out_fn := endswith func_name "_out" in
  if is_out_fn && variants_not_function_only func_decl
  then Raise (RuntimeError_out_variant func_name)
  else if (String.length (strip args) =? 0)%nat then Ok []
  else
    let* arguments :=
      parse_arguments_loop is_out_fn func_return 0 (split args ", ") false [] in
    if returns_alias inplace func_return then
      let* found_self := find_self func_return 0 arguments false in
      let* _ := assert found_self AssertionError_found_self in
      Ok arguments
    else Ok arguments.

(** [str(n)] for a natural number. *)
Definition str_of_nat (n : nat) : string :=
  DecimalString.NilZero.string_of_uint (Nat.to_uint n).

(** Lines 186-210, the body of the loop of [parse_return_arguments]. *)
Definition parse_return_argument (inplace multiple_args : bool)
    (arg_idx : nat) (arg : string) : result Return :=
  let* (t, name, field_name, annotation) :=
    match map strip (rsplit1 arg " ") with
    | [t] =>
        let '(t, annotation) := get_annotation t in
        if String.eqb t "Tensor" && inplace then
          let* _ := assert (is_mutable annotation) AssertionError_return_mutable in
          Ok (t, "self", None, annotation)
        else
          Ok (t, if negb multiple_args then "result" else "result" +:+ str_of_nat arg_idx,
              None, annotation)
    | [t; name] =>
        let '(t, annotation) := get_annotation t in
        Ok (t, name, Some name, annotation)
    | _ => Raise ValueError_unpack
    end in
  let typ := sanitize_type t in
  Ok {| r_type := temp_type_translations typ;
        r_name := name;
        r_field_name := field_name;
        r_annotation := annotation |}.

Fixpoint parse_return_loop (inplace multiple_args : bool) (arg_idx : nat)
    (pieces : list string) (arguments : list Return) : result (list Return) :=
  match pieces with
  | [] => Ok arguments
  | arg :: pieces' =>
      let* r := parse_return_argument inplace multiple_args arg_idx arg in
      parse_return_loop inplace multiple_args (S arg_idx) pieces' (arguments ++ [r])
  end.

Definition parse_return_arguments (return_decl : string) (inplace : bool)
    (func_decl : func_record) : result (list Return) :=
  match first return_decl, last return_decl with
  | Some c0, Some cl =>
      let return_decl :=
        if Ascii.eqb c0 "(" && Ascii.eqb cl ")" then inner return_decl else return_decl in
      let multiple_args := (1 <? length (split return_decl ", "))%nat in
      parse_return_loop inplace multiple_args 0 (split return_decl ", ") []
  | _, _ => Raise IndexError
  end.

(** ['Sparse' in dispatch] for one element of [dispatches]. *)
Definition mentions_sparse (dispatch : yaml) : result bool :=
  match dispatch with
  | YStr s => Ok (contains s "Sparse")
  | YSeq items =>
      Ok (existsb (fun y => match y with YStr s => String.eqb s "Sparse" | _ => false end) items)
  | YMap items => Ok (existsb (fun kv => String.eqb (fst kv) "Sparse") items)
  | YNull | YBool _ | YInt _ => Raise TypeError_not_iterable
  end.

Fixpoint any_sparse (dispatches : list yaml) : result bool :=
  match dispatches with
  | [] => Ok false
  | dispatch :: rest =>
      let* b := mentions_sparse dispatch in
      if b then Ok true else any_sparse rest
  end.

(** Iterating a string gives its characters, iterating a mapping gives
    its keys. *)
Definition has_sparse_dispatches (dispatches : yaml) : result bool :=
  match dispatches with
  | YStr s => any_sparse (map (fun c => YStr (String c EmptyString)) (list_ascii_of_string s))
  | YSeq items => any_sparse items
  | YMap items => any_sparse (map (fun kv => YStr (fst kv)) items)
  | YNull | YBool _ | YInt _ => Raise TypeError_not_iterable
  end.

(** [[x for x in arguments if x.get('output')]], as positions in
    [arguments]: the dictionaries of [output_arguments] are those of
    [arguments], not copies. *)
Fixpoint output_positions (i : nat) (arguments : list Argument) : list nat :=
  match arguments with
  | [] => []
  | a :: rest =>
      if a_output a then i :: output_positions (S i) rest
      else output_positions (S i) rest
  end.

Definition set_field_name (fn : string) (a : Argument) : Argument :=
  {| a_type := a_type a; a_name := a_name a; a_is_nullable := a_is_nullable a;
     a_size := a_size a; a_default := a_default a; a_output := a_output a;
     a_kwarg_only := a_kwarg_only a; a_annotation := a_annotation a;
     a_field_name := Some fn |}.

(** Lines 228-230: the loop over [enumerate(return_arguments)]; the
    assignment [output_arguments[i]['field_name'] = ...] updates the
    dictionary at position [output_arguments[i]] of the store. *)
Fixpoint propagate_loop (output_arguments : list nat) (i : nat)
    (return_arguments : list Return) (store : list Argument)
  : result (list Argument) :=
  match return_arguments with
  | [] => Ok store
  | r :: rest =>
      match r_field_name r with
      | Some fn =>
          match output_arguments !! i with
          | Some pos =>
              propagate_loop output_arguments (S i) rest (alter (set_field_name fn) pos store)
          | None => Raise IndexError
          end
      | None => propagate_loop output_arguments (S i) rest store
      end
  end.

Definition propagate_field_names (output_arguments : list nat)
    (return_arguments : list Return) (store : list Argument)
  : result (list Argument) :=
  match output_arguments with
  | [] => Ok store
  | _ :: _ => propagate_loop output_arguments 0 return_arguments store
  end.

(** [re.search('(^__i|[^_]_$)', fn_name) is not None]. The second
    alternative is tried at every position: a character other than the
    underscore, an underscore, and then the end of the text or its final
    newline. *)
Fixpoint search_underscore_end (s : string) : bool :=
  match s with
  | EmptyString => false
  | String c s' =>
      (negb (Ascii.eqb c "_") && (String.eqb s' "_" || String.eqb s' ("_" +:+ newline)))
      || search_underscore_end s'
  end.

Definition is_inplace (fn_name : string) : bool :=
  startswith fn_name "__i" || search_underscore_end fn_name.

(** Lines 244-246 of [run]: the function name and the text of the
    argument list without its closing parenthesis. *)
Definition split_declaration (func_decl return_decl : string)
  : result (string * string * string) :=
  match split1 func_decl "(" with
  | [fn_name; arguments] =>
      match last arguments with
      | None => Raise IndexError
      | Some c =>
          let* _ := assert (Ascii.eqb c ")") AssertionError_closing_paren in
          Ok (fn_name, init arguments, return_decl)
      end
  | _ => Raise ValueError_unpack
  end.

(** Lines 240-246 of [run]: the function name, the text of the argument
    list, and the return declaration. *)
Definition split_signature (text : string) : result (string * string * string) :=
  if contains text "->" then
    match map strip (split text "->") with
    | [func_decl; return_decl] => split_declaration func_decl return_decl
    | _ => Raise ValueError_unpack
    end
  else Raise Exception_expected_return.

(** What [run] has computed for a record after line 250. *)
Record signature : Type := {
  s_fn_name : string;
  s_args : string;
  s_name : string;
  s_inplace : bool;
  s_return_arguments : list Return;
  s_arguments : list Argument
}.

(** Lines 240-250 of [run]. *)
Definition parse_signature (func_decl : func_record) : result signature :=
  let* (fn_name, args, return_decl) := split_signature (func func_decl) in
  let name := default fn_name (f_name func_decl) in
  let inplace := is_inplace fn_name in
  let* return_arguments := parse_return_arguments return_decl inplace func_decl in
  let* arguments := parse_arguments args func_decl name return_arguments inplace in
  Ok {| s_fn_name := fn_name; s_args := args; s_name := name; s_inplace := inplace;
        s_return_arguments := return_arguments; s_arguments := arguments |}.

(** The dictionaries at the positions [output_arguments] of the store. *)
Definition dictionaries (output_arguments : list nat) (store : list Argument)
  : list Argument :=
  omap (fun pos => store !! pos) output_arguments.

(** The body of the [try] of [run] for one record. The handler prints a
    message and raises the exception again. *)
Definition compile_record (func_decl : func_record) : result Declaration :=
  let* sg := parse_signature func_decl in
  let return_arguments := s_return_arguments sg in
  let arguments := s_arguments sg in
  let output_arguments := output_positions 0 arguments in
  let* arguments := propagate_field_names output_arguments return_arguments arguments in
  let dispatch := default (YStr (s_name sg)) (f_dispatch func_decl) in
  let* aten_sparse := has_sparse_dispatches dispatch in
  Ok {| d_mode := "native";
        d_schema_string := "aten::" +:+ func func_decl;
        d_name := s_name sg;
        d_inplace := s_inplace sg;
        d_return :=
          if (length output_arguments =? 0)%nat
          then map ReturnSlot return_arguments
          else map OutputArgument (dictionaries output_arguments arguments);
        d_variants := default (YSeq [YStr "function"]) (f_variants func_decl);
        d_requires_tensor := default (YBool false) (f_requires_tensor func_decl);
        d_matches_jit_signature := default (YBool false) (f_matches_jit_signature func_decl);
        d_cpu_half := default (YBool false) (f_cpu_half func_decl);
        d_deprecated := default (YBool false) (f_deprecated func_decl);
        d_device_guard := default (YBool true) (f_device_guard func_decl);
        d_arguments :=
          match f_arguments func_decl with
          | Some v => Overridden v
          | None => Parsed arguments
          end;
        d_type_method_definition_dispatch := dispatch;
        d_python_module := default (YStr "") (f_python_module func_decl);
        d_aten_sparse := aten_sparse |}.

(** The inner loop of [run] over the records of one document. *)
Fixpoint run_document (funcs : list func_record) (declarations : list Declaration)
  : result (list Declaration) :=
  match funcs with
  | [] => Ok declarations
  | func_decl :: rest =>
      let* declaration := compile_record func_decl in
      run_document rest (declarations ++ [declaration])
  end.

Fixpoint run_documents (documents : list (list func_record))
    (declarations : list Declaration) : result (list Declaration) :=
  match documents with
  | [] => Ok declarations
  | funcs :: rest =>
      let* declarations := run_document funcs declarations in
      run_documents rest declarations
  end.

(** [run(paths)], with each path given by the records
    [parse_native_yaml] reads from it. *)
Definition run (documents : list (list func_record)) : result (list Declaration) :=
  run_documents documents [].

(** A declaration with nothing in it: what [from_Ok] is given for a
    compilation that raises. *)
Definition blank_declaration : Declaration :=
  {| d_mode := ""; d_schema_string := ""; d_name := ""; d_inplace := false;
     d_return := []; d_variants := YNull; d_requires_tensor := YNull;
     d_matches_jit_signature := YNull; d_cpu_half := YNull;
     d_deprecated := YNull; d_device_guard := YNull;
     d_arguments := Parsed []; d_type_method_definition_dispatch := YNull;
     d_python_module := YNull; d_aten_sparse := false |}.

(** *** What the specification says of the parser *)

(** The naming convention of the specification for in-place operators:
    the name starts with [__i], or ends with [_] while not ending with
    [__]. *)
Definition inplace_convention (name : string) : bool :=
  startswith name "__i" || (endswith name "_" && negb (endswith name "__")).

(** The first step of the specification's algorithm: the signature is
    split on the first occurrence of [->]. *)
Definition split_signature_first_arrow (text : string)
  : result (string * string * string) :=
  match partition text "->" with
  | Some (func_decl, return_decl) => split_declaration (strip func_decl) (strip return_decl)
  | None => Raise Exception_expected_return
  end.

(** The pieces of an argument list that are arguments, in order, each
    with its index among all the pieces, its type token and the text
    after it: the pieces that have no space (the separator [*]) are left
    out. *)
Fixpoint indexed_pieces (arg_idx : nat) (pieces : list string)
  : list (nat * string * string) :=
  match pieces with
  | [] => []
  | arg :: rest =>
      match map strip (rsplit1 arg " ") with
      | [t; name] => [(arg_idx, t, name)]
      | _ => []
      end ++ indexed_pieces (S arg_idx) rest
  end.

Definition argument_pieces (args : string) : list (nat * string * string) :=
  indexed_pieces 0 (split args ", ").

(** The type token of an argument without its alias annotation: the
    first group of the pattern of [get_annotation] where the token
    matches it, the token itself where it does not. *)
Definition without_annotation (t : string) : string := (get_annotation t).1.

(** A text without the parentheses around it and the white space inside
    them, if it is in parentheses. *)
Definition without_parentheses (u : string) : string :=
  if startswith u "(" && endswith u ")" then strip (inner u) else u.

(** Whether the argument of type token [t] is stored as nullable, and
    the type it is stored with, said from the token alone. With [u] the
    token without its annotation and [v] the text [u] without its
    parentheses: the argument is nullable when [v] ends with [?], unless
    [u] is [Generator?]; its type is [Generator *] when [u] is
    [Generator?] or [v] is [Generator*], and otherwise [v] without the
    [?] at its end, which is replaced by [IntList] when it begins with
    [int[N]] for digits [N], and then translated. *)
Definition stored_nullable (t : string) : bool :=
  let u := without_annotation t in
  negb (String.eqb u "Generator?") && endswith (without_parentheses u) "?".

Definition stored_type (t : string) : string :=
  let u := without_annotation t in
  let v := without_parentheses u in
  if String.eqb u "Generator?" || String.eqb v "Generator*" then "Generator *"
  else
    let w := rstrip_char "?" v in
    match match_int_size w with
    | Some _ => "IntList"
    | None => temp_type_translations w
    end.



(** Two argument dictionaries that agree on every key other than
    ['field_name']. *)
Definition same_but_field_name (a b : Argument) : Prop :=
  a_type a = a_type b /\ a_name a = a_name b /\
  a_is_nullable a = a_is_nullable b /\ a_size a = a_size b /\
  a_default a = a_default b /\ a_output a = a_output b /\
  a_kwarg_only a = a_kwarg_only b /\ a_annotation a = a_annotation b.

(** The explicit field name of the return slot number [i], if there is
    such a slot and it has one. *)
Definition field_name_at (return_arguments : list Return) (i : nat) : option string :=
  return_arguments !! i ≫= r_field_name.

(** What the loop of [propagate_field_names] makes of the output
    arguments: each gets the field name of the return slot at its
    position. *)
Fixpoint with_field_names (return_arguments : list Return)
    (output_arguments : list Argument) : list Argument :=
  match output_arguments, return_arguments with
  | o :: os, r :: rs =>
      match r_field_name r with
      | Some fn => set_field_name fn o
      | None => o
      end :: with_field_names rs os
  | os, [] => os
  | [], _ => []
  end.

(** The values of ['variants'] under which a function whose name ends in
    [_out] is accepted: the key is absent, or its value is equal to the
    default [[]], to ['function'] or to [['function']]. *)
Definition function_variant_only (v : option yaml) : Prop :=
  v = None \/ v = Some (YSeq []) \/ v = Some (YStr "function")
  \/ v = Some (YSeq [YStr "function"]).

(** *** What further properties speak of *)

(** A text made of decimal digits only. *)
Fixpoint all_digits (s : string) : bool :=
  match s with
  | EmptyString => true
  | String c s' => isdigit c && all_digits s'
  end.

(** A piece of an argument list that is the separator [*]: the test
    [type_and_name == ['*']] of line 113. *)
Definition is_separator (arg : string) : bool :=
  match map strip (rsplit1 arg " ") with
  | [one] => String.eqb one "*"
  | _ => false
  end.

(** The name [parse_return_arguments] gives to the return slot number
    [arg_idx] that has no name of its own and is not [self]. *)
Definition result_name (multiple_args : bool) (arg_idx : nat) : string :=
  if negb multiple_args then "result" else "result" +:+ str_of_nat arg_idx.

End NativeParse.

(** ** [generate-wrapper.py] *)

Module GenerateWrapper.
Import PyStr.

(** *** The file system

    The part of the file system below the current directory: what there
    is at each path, keyed by the text of the path. The model is that of
    a POSIX file system, with case-sensitive names and without symbolic
    links, for the paths in which every name between separators names an
    entry of a directory (no [.], [..], doubled, leading or trailing
    separators, see [plain] below), such as those of the script's table:
    for these, two texts name two different places. A path that is not
    of this form is kept under its own text, where the operating system
    would resolve it to the place of another text or refuse it; the
    properties that compare what a run leaves at a path with the table
    are stated for plain names. Failures of the operating system other
    than the four below (permissions, a full disk, a name too long) are
    outside of the model. *)

Inductive node : Type :=
  | Dir
  | File (content : string).

#[global] Instance node_eq_dec : EqDecision node.
Proof. solve_decision. Defined.

Abbreviation filesystem := (gmap string node).

(** [os.path.join(a, b)] *)
Definition os_path_join (a b : string) : string :=
  if startswith b "/" then b
  else if String.eqb a EmptyString || endswith a "/" then a +:+ b
  else a +:+ "/" +:+ b.

(** [p == '/' * len(p)] *)
Fixpoint all_slashes (p : string) : bool :=
  match p with
  | EmptyString => true
  | String c p' => Ascii.eqb c "/" && all_slashes p'
  end.

(** [os.path.dirname(p)]: the text up to the last separator, without
    the separators at its end unless it is made of separators only. *)
Definition os_path_dirname (p : string) : string :=
  let head :=
    match rindex p "/" with
    | Some i => take (S i) p
    | None => EmptyString
    end in
  if all_slashes head then head else rstrip_char "/" head.

(** [os.path.isdir(p)] *)
Definition os_path_isdir (p : string) (fs : filesystem) : bool :=
  bool_decide (fs !! p = Some Dir).

(** The directory a new entry at [p] goes into has to be there; the
    current directory and the root always are. *)
Definition check_parent (p : string) (fs : filesystem) : result unit :=
  let d := os_path_dirname p in
  if all_slashes d then Ok tt
  else
    match fs !! d with
    | Some Dir => Ok tt
    | Some (File _) => Raise (NotADirectoryError p)
    | None => Raise (FileNotFoundError p)
    end.

(** [os.mkdir(p)] *)
Definition os_mkdir (p : string) (fs : filesystem) : result filesystem :=
  match fs !! p with
  | Some _ => Raise (FileExistsError p)
  | None =>
      let* _ := check_parent p fs in
      Ok (<[p := Dir]> fs)
  end.

(** The proper prefixes of [p] that stop before a separator: the
    directories above [p], the outermost first. [acc] is the text
    already passed. *)
Fixpoint ancestors_go (acc p : string) : list string :=
  match p with
  | EmptyString => []
  | String c p' =>
      (if Ascii.eqb c "/" && negb (all_slashes acc) && negb (endswith acc "/")
       then [acc] else [])
      ++ ancestors_go (acc +:+ String c EmptyString) p'
  end.

Definition ancestors (p : string) : list string := ancestors_go EmptyString p.

Fixpoint mkdir_missing (ps : list string) (fs : filesystem) : result filesystem :=
  match ps with
  | [] => Ok fs
  | p :: ps' =>
      match fs !! p with
      | Some _ => mkdir_missing ps' fs
      | None =>
          let* fs := os_mkdir p fs in
          mkdir_missing ps' fs
      end
  end.

(** [os.makedirs(name)]: makes the directories above the leaf that are
    missing, then the leaf itself, which must not exist. *)
Definition os_makedirs (name : string) (fs : filesystem) : result filesystem :=
  let* fs := mkdir_missing (ancestors name) fs in
  os_mkdir name fs.

(** [open(p, "w")]: the file at [p] is created or emptied. *)
Definition open_w (p : string) (fs : filesystem) : result filesystem :=
  match fs !! p with
  | Some Dir => Raise (IsADirectoryError p)
  | _ =>
      let* _ := check_parent p fs in
      Ok (<[p := File EmptyString]> fs)
  end.

(** [print(text, file=wrapper)] for the file object opened on [p]. *)
Definition print (text : string) (p : string) (fs : filesystem) : filesystem :=
  match fs !! p with
  | Some (File content) => <[p := File (content +:+ text +:+ newline)]> fs
  | _ => fs
  end.

(** *** The script *)

Definition QNNPACK_SOURCES : list (option string * list string) :=
  [
  (None,
     ["requantization/fp32-psimd.c";
      "requantization/fp32-scalar.c";
      "requantization/gemmlowp-scalar.c";
      "requantization/precise-psimd.c";
      "requantization/precise-scalar.c";
      "requantization/q31-scalar.c";
      "sgemm/6x8-psimd.c";
      "u8lut32norm/scalar.c";
      "x8lut/scalar.c"]);
  (Some "defined(__arm__) || defined(__aarch64__)",
     ["q8avgpool/mp8x9p8q-neon.c";
      "q8avgpool/up8x9-neon.c";
      "q8avgpool/up8xm-neon.c";
      "q8conv/4x8-neon.c";
      "q8conv/8x8-neon.c";
      "q8dwconv/mp8x25-neon.c";
      "q8dwconv/mp8x25-neon-per-channel.c";
      "q8dwconv/up8x9-neon.c";
      "q8dwconv/up8x9-neon-per-channel.c";
      "q8gavgpool/mp8x7p7q-neon.c";
      "q8gavgpool/up8x7-neon.c";
      "q8gavgpool/up8xm-neon.c";
      "q8gemm/4x-sumrows-neon.c";
      "q8gemm/4x8-neon.c";
      "q8gemm/4x8-dq-neon.c";
      "q8gemm/4x8c2-xzp-neon.c";
      "q8gemm/6x4-neon.c";
      "q8gemm/8x8-neon.c";
      "q8vadd/neon.c";
      "requantization/fp32-neon.c";
      "requantization/gemmlowp-neon.c";
      "requantization/precise-neon.c";
      "requantization/q31-neon.c";
      "sgemm/5x8-neon.c";
      "sgemm/6x8-neon.c";
      "u8clamp/neon.c";
      "u8maxpool/16x9p8q-neon.c";
      "u8maxpool/sub16-neon.c";
      "u8rmax/neon.c";
      "x8zip/x2-neon.c";
      "x8zip/x3-neon.c";
      "x8zip/x4-neon.c";
      "x8zip/xm-neon.c"]);
  (Some "defined(__i386__) || defined(__i686__) || defined(__x86_64__)",
     ["q8avgpool/mp8x9p8q-sse2.c";
      "q8avgpool/up8x9-sse2.c";
      "q8avgpool/up8xm-sse2.c";
      "q8conv/4x4c2-sse2.c";
      "q8dwconv/mp8x25-sse2.c";
      "q8dwconv/mp8x25-sse2-per-channel.c";
      "q8dwconv/up8x9-sse2.c";
      "q8dwconv/up8x9-sse2-per-channel.c";
      "q8gavgpool/mp8x7p7q-sse2.c";
      "q8gavgpool/up8x7-sse2.c";
      "q8gavgpool/up8xm-sse2.c";
      "q8gemm/2x4c8-sse2.c";
      "q8gemm/4x4c2-dq-sse2.c";
      "q8gemm/4x4c2-sse2.c";
      "q8vadd/sse2.c";
      "requantization/fp32-sse2.c";
      "requantization/gemmlowp-sse2.c";
      "requantization/gemmlowp-sse4.c";
      "requantization/gemmlowp-ssse3.c";
      "requantization/precise-sse2.c";
      "requantization/precise-sse4.c";
      "requantization/precise-ssse3.c";
      "requantization/q31-sse2.c";
      "requantization/q31-sse4.c";
      "requantization/q31-ssse3.c";
      "u8clamp/sse2.c";
      "u8maxpool/16x9p8q-sse2.c";
      "u8maxpool/sub16-sse2.c";
      "u8rmax/sse2.c";
      "x8zip/x2-sse2.c";
      "x8zip/x3-sse2.c";
      "x8zip/x4-sse2.c";
      "x8zip/xm-sse2.c"]);
  (Some "defined(__arm__)",
     ["hgemm/8x8-aarch32-neonfp16arith.S";
      "q8conv/4x8-aarch32-neon.S";
      "q8dwconv/up8x9-aarch32-neon.S";
      "q8dwconv/up8x9-aarch32-neon-per-channel.S";
      "q8gemm/4x8-aarch32-neon.S";
      "q8gemm/4x8-dq-aarch32-neon.S";
      "q8gemm/4x8c2-xzp-aarch32-neon.S"]);
  (Some "defined(__aarch64__)",
     ["q8conv/8x8-aarch64-neon.S";
      "q8gemm/8x8-aarch64-neon.S";
      "q8gemm/8x8-dq-aarch64-neon.S"])
  ].

Definition BANNER : string :=
  "/* Auto-generated by generate-wrappers.py script. Do not modify */".

(** Lines 117-130, the body of the [with] statement: [wrapper] is the
    file object opened on [filepath]. *)
Definition print_wrapper (condition : option string) (filename filepath : string)
    (fs : filesystem) : filesystem :=
  let fs := print BANNER filepath fs in
  let fs := print EmptyString filepath fs in
  match condition with
  | None => print ("#include <" +:+ filename +:+ ">") filepath fs
  | Some condition =>
      let fs := print ("#if " +:+ condition) filepath fs in
      let fs := print ("#include <" +:+ filename +:+ ">") filepath fs in
      print ("#endif /* " +:+ condition +:+ " */") filepath fs
  end.

(** Lines 113-130, the body of the inner loop. *)
Definition write_wrapper (condition : option string) (filename : string)
    (fs : filesystem) : result filesystem :=
  let filepath := os_path_join "wrappers" filename in
  let* fs :=
    if negb (os_path_isdir (os_path_dirname filepath) fs)
    then os_makedirs (os_path_dirname filepath) fs
    else Ok fs in
  let* fs := open_w filepath fs in
  Ok (print_wrapper condition filename filepath fs).

(** The inner loop, over the file names of one condition. *)
Fixpoint write_wrappers (condition : option string) (filenames : list string)
    (fs : filesystem) : result filesystem :=
  match filenames with
  | [] => Ok fs
  | filename :: rest =>
      let* fs := write_wrapper condition filename fs in
      write_wrappers condition rest fs
  end.

(** The outer loop, over the items of the table in their order. *)
Fixpoint generate (sources : list (option string * list string))
    (fs : filesystem) : result filesystem :=
  match sources with
  | [] => Ok fs
  | (condition, filenames) :: rest =>
      let* fs := write_wrappers condition filenames fs in
      generate rest fs
  end.

Definition main (fs : filesystem) : result filesystem :=
  generate QNNPACK_SOURCES fs.

(** *** What the specification says of the script *)

(** The text made of the given lines, each ended by a newline. *)
Fixpoint unlines (lines : list string) : string :=
  match lines with
  | [] => EmptyString
  | l :: rest => l +:+ newline +:+ unlines rest
  end.

(** The content the specification gives to the wrapper of [filename]
    under [predicate]: the banner, a blank line, and the include, alone
    or between [#if] and [#endif]. *)
Definition wrapper_content (predicate : option string) (filename : string) : string :=
  unlines
    ([BANNER; EmptyString] ++
     match predicate with
     | None => ["#include <" +:+ filename +:+ ">"]
     | Some p => ["#if " +:+ p; "#include <" +:+ filename +:+ ">"; "#endif /* " +:+ p +:+ " */"]
     end).

(** The (predicate, file) entries of a table, in the order the two loops
    visit them. *)
Definition entries (sources : list (option string * list string))
  : list (option string * string) :=
  flat_map (fun item => map (fun filename => (fst item, filename)) (snd item)) sources.

(** The two loops as one, over the entries. *)
Fixpoint write_entries (es : list (option string * string)) (fs : filesystem)
  : result filesystem :=
  match es with
  | [] => Ok fs
  | (condition, filename) :: rest =>
      let* fs := write_wrapper condition filename fs in
      write_entries rest fs
  end.

(** *** Names that identify files

    A name between separators that names an entry of a directory: it is
    not empty, not [.] and not [..], and has no NUL character. A path is
    plain when each of its names is: a relative path without doubled,
    leading or trailing separators. Two plain paths name the same place
    exactly when their texts are equal, and that is where the keys of
    the model are the places of the file system. *)
Definition plain_component (c : string) : bool :=
  negb (String.eqb c "") && negb (String.eqb c ".") && negb (String.eqb c "..")
  && negb (contains c (String "000" EmptyString)).

Definition plain (p : string) : bool := forallb plain_component (split p "/").

(** Every file name of the table is plain. *)
Definition plain_names (sources : list (option string * list string)) : Prop :=
  Forall (fun f => plain f = true) (entries sources).*2.

(** *** What further properties speak of *)

(** The predicate of the last entry of [es] for the file [filename], if
    there is one. *)
Fixpoint last_predicate (es : list (option string * string)) (filename : string)
  : option (option string) :=
  match es with
  | [] => None
  | (condition, f) :: rest =>
      match last_predicate rest filename with
      | Some c => Some c
      | None => if String.eqb f filename then Some condition else None
      end
  end.

End GenerateWrapper.

(** * Properties *)

(** Tests of the builtins against the interpreter's answers. *)
Module PyStrTests.
Import PyStr.

Example split_arrow : split "a->b->c" "->" = ["a"; "b"; "c"].
Proof. reflexivity. Qed.
Example split_only_sep : split "->" "->" = [""; ""].
Proof. reflexivity. Qed.
Example split_adjacent : split "a, , b" ", " = ["a"; ""; "b"].
Proof. reflexivity. Qed.
Example split_overlap : split "aaa" "aa" = [""; "a"].
Proof. reflexivity. Qed.
Example split_none : split "abc" ", " = ["abc"].
Proof. reflexivity. Qed.
Example rsplit1_last : rsplit1 "a b  c" " " = ["a b "; "c"].
Proof. reflexivity. Qed.
Example rsplit1_lead : rsplit1 " x" " " = [""; "x"].
Proof. reflexivity. Qed.
Example rsplit1_none : rsplit1 "*" " " = ["*"].
Proof. reflexivity. Qed.
Example split1_eq : split1 "a=b=c" "=" = ["a"; "b=c"].
Proof. reflexivity. Qed.
Example split1_paren : split1 "f(a)(b" "(" = ["f"; "a)(b"].
Proof. reflexivity. Qed.
Example rstrip_char_all : rstrip_char "?" "T??" = "T".
Proof. reflexivity. Qed.
Example strip_both : strip ("  a b" +:+ newline +:+ " ") = "a b".
Proof. reflexivity. Qed.
Example inner_two : inner "ab" = "" /\ inner "a" = "" /\ inner "[1,2]" = "1,2".
Proof. repeat split. Qed.
Example endswith_out : endswith "add_out" "_out" = true /\ endswith "out" "_out" = false.
Proof. split; reflexivity. Qed.
End PyStrTests.

Module PyNumTests.
Import PyNum.

Example int_accepts :
  map int ["1"; "+1"; " 1 "; "1_0"; "007"; "-0"; "+0_1"; "1_000"]
  = map Some [1; 1; 1; 10; 7; 0; 1; 1000]%Z.
Proof. reflexivity. Qed.
Example int_rejects :
  map int ["_1"; "1_"; "0x1"; ""; "-"; "1__0"; "1.0"; "+-1"; "+ 1"; "1e5"]
  = replicate 10 None.
Proof. reflexivity. Qed.
Example float_accepts :
  forallb (fun s => bool_decide (is_Some (float s)))
    ["1."; ".1"; "1e5"; "inf"; "-Infinity"; "+nan"; "1_0.5"; "1e+5"; "iNf";
     "-.5e-3"; "1e5_0"; "1.e5"; "00.0_1"; "1e0_0"] = true.
Proof. reflexivity. Qed.
Example float_rejects :
  map float ["."; "1e"; "1._5"; "e5"; "1e_5"; "0x1p3"; "infi"; "1.5f"; "1 .5";
             "1_e5"; "+ 1"; "1.e"; ".e5"; "1.5."; "--1"; "+."; "1__0.0"]
  = replicate 17 None.
Proof. reflexivity. Qed.
End PyNumTests.

(** ** Properties of the string builtins *)

Module PyStrFacts.
Import PyStr.

Lemma append_cons (x : ascii) (a b : string) :
  String x a +:+ b = String x (a +:+ b).
Proof. reflexivity. Qed.

Lemma append_nil_l (a : string) : "" +:+ a = a.
Proof. reflexivity. Qed.

Lemma append_assoc (a b c : string) : (a +:+ b) +:+ c = a +:+ (b +:+ c).
Proof.
  induction a as [|x a IH]; [done|]. by rewrite !append_cons, IH.
Qed.

Lemma append_nil_r (a : string) : a +:+ "" = a.
Proof.
  induction a as [|x a IH]; [done|]. by rewrite append_cons, IH.
Qed.

Lemma startswith_spec (s p : string) :
  startswith s p = true <-> exists r, s = p +:+ r.
Proof.
  revert s. induction p as [|a p IH]; intros s.
  - destruct s; simpl; (split; [eauto | done]).
  - destruct s as [|b s]; [split; [done | intros [r [=]]]|].
    cbn [startswith]. destruct (Ascii.eqb_spec a b) as [->|Hne]; simpl.
    + rewrite IH. split; intros [r Hr].
      * exists r. by rewrite append_cons, Hr.
      * rewrite append_cons in Hr. injection Hr as ->. eauto.
    + split; [done|]. intros [r Hr]. rewrite append_cons in Hr. congruence.
Qed.

Lemma endswith_spec (s p : string) :
  endswith s p = true <-> exists r, s = r +:+ p.
Proof.
  induction s as [|b s IH]; cbn [endswith].
  - rewrite orb_false_r. split.
    + intros <-%String.eqb_eq. by exists "".
    + intros [r Hr]. destruct r; [|by rewrite append_cons in Hr].
      rewrite append_nil_l in Hr. subst p. apply String.eqb_refl.
  - rewrite orb_true_iff, IH. split.
    + intros [<-%String.eqb_eq|[r ->]]; [by exists "" | by exists (String b r)].
    + intros [[|c r] Hr].
      * left. rewrite Hr. apply String.eqb_refl.
      * right. rewrite append_cons in Hr. injection Hr as -> ->. eauto.
Qed.

(** A separator still to be passed over is skipped as [drop] does. *)
Lemma split_go_skip (sep : string) (k : nat) (cur s : string) :
  split_go sep k cur s = split_go sep 0 cur (drop k s).
Proof.
  revert s. induction k as [|k IH]; intros s; [done|].
  destruct s as [|c s]; [done|]. simpl. apply IH.
Qed.

(** [split] follows [partition]: the first piece is the text before the
    first separator, the other pieces are those of the text after it. *)
Lemma split_go_partition (a : ascii) (sep' cur s : string) :
  split_go (String a sep') 0 cur s =
  match partition s (String a sep') with
  | Some (l, r) => (cur +:+ l) :: split_go (String a sep') 0 "" r
  | None => [cur +:+ s]
  end.
Proof.
  revert cur. induction s as [|c s IH]; intros cur.
  - simpl. by rewrite append_nil_r.
  - cbn [split_go partition].
    destruct (startswith (String c s) (String a sep')) eqn:Hst.
    + rewrite append_nil_r, split_go_skip. simpl. by rewrite Nat.sub_0_r.
    + rewrite IH. destruct (partition s (String a sep')) as [[l r]|].
      * by rewrite append_assoc.
      * by rewrite append_assoc.
Qed.

Lemma split_partition (a : ascii) (sep' s : string) :
  split s (String a sep') =
  match partition s (String a sep') with
  | Some (l, r) => l :: split r (String a sep')
  | None => [s]
  end.
Proof. unfold split. rewrite split_go_partition. by destruct (partition _ _) as [[??]|]. Qed.

Lemma partition_contains (s sep : string) :
  contains s sep = match partition s sep with Some _ => true | None => false end.
Proof.
  induction s as [|c s IH]; cbn [contains partition].
  - by destruct (startswith "" sep).
  - destruct (startswith (String c s) sep); [done|].
    rewrite IH. simpl. by destruct (partition s sep) as [[l r]|].
Qed.

Lemma contains_false_partition (s sep : string) :
  contains s sep = false -> partition s sep = None.
Proof. rewrite partition_contains. by destruct (partition s sep). Qed.

Lemma partition_Some_contains (s sep l r : string) :
  partition s sep = Some (l, r) -> contains s sep = true.
Proof. intros H. by rewrite partition_contains, H. Qed.

Lemma startswith_nil (s : string) : startswith s "" = true.
Proof. by destruct s. Qed.

Lemma partition_char_append (c : ascii) (s r : string) :
  contains s (String c "") = false ->
  partition (s +:+ String c r) (String c "") = Some (s, r).
Proof.
  induction s as [|a s IH]; intros H.
  - rewrite append_nil_l. cbn [partition startswith].
    by rewrite Ascii.eqb_refl, startswith_nil.
  - cbn [contains] in H. apply orb_false_elim in H as [Ha Hs].
    rewrite append_cons. cbn [partition].
    assert (startswith (String a (s +:+ String c r)) (String c "") = false) as ->.
    { cbn [startswith] in *. rewrite startswith_nil in *.
      by destruct (Ascii.eqb c a). }
    by rewrite IH.
Qed.

End PyStrFacts.

(** ** Properties of results *)

Module ResultFacts.

Lemma Ok_from_Ok {A : Type} (d : A) (r : result A) :
  is_Ok r = true -> r = Ok (from_Ok d r).
Proof. by destruct r. Qed.

Lemma bind_Ok {A B : Type} (r : result A) (k : A -> result B) (b : B) :
  bind r k = Ok b -> exists a, r = Ok a /\ k a = Ok b.
Proof. destruct r as [a|e]; simpl; [eauto | discriminate]. Qed.

End ResultFacts.

(** ** Properties of the schema parser *)

Module NativeParseFacts.
Import PyStr PyStrFacts ResultFacts NativeParse.

(** *** The in-place naming convention *)

Lemma search_underscore_end_spec (s : string) :
  search_underscore_end s = true <->
  exists pre c, c ≠ "_"%char /\
    (s = pre +:+ String c "_" \/ s = pre +:+ String c ("_" +:+ newline)).
Proof.
  induction s as [|a s IH]; cbn [search_underscore_end].
  - split; [done|]. intros (pre & c & _ & [H|H]); by destruct pre.
  - rewrite orb_true_iff, andb_true_iff, negb_true_iff, orb_true_iff, IH.
    split.
    + intros [[Ha Hs]|(pre & c & Hc & Hs)].
      * exists "", a. split; [by intros ->|].
        destruct Hs as [->%String.eqb_eq| ->%String.eqb_eq]; [by left | by right].
      * exists (String a pre), c. split; [done|].
        rewrite !append_cons. destruct Hs as [->| ->]; [by left | by right].
    + intros (pre & c & Hc & Hs). destruct pre as [|b pre].
      * left. rewrite !append_nil_l in Hs.
        assert (a = c) as -> by (destruct Hs as [[=]|[=]]; done).
        split; [by apply Ascii.eqb_neq|].
        destruct Hs as [[= ->]|[= ->]]; [left | right]; apply String.eqb_refl.
      * right. exists pre, c. split; [done|].
        rewrite !append_cons in Hs. destruct Hs as [[= _ ->]|[= _ ->]]; [by left | by right].
Qed.

(** Without a newline, and the name [_] apart, the search is the
    convention's test on the end of the name. *)
Lemma search_underscore_end_convention (s : string) :
  contains s newline = false ->
  search_underscore_end s
  = endswith s "_" && negb (endswith s "__") && negb (String.eqb s "_").
Proof.
  induction s as [|a s IH]; [done|].
  cbn [contains]. intros [Ha Hs]%orb_false_elim. specialize (IH Hs).
  cbn [search_underscore_end endswith]. rewrite IH. clear IH.
  destruct s as [|b s].
  - destruct (Ascii.eqb_spec a "_") as [->|Hne]; [done|].
    assert (String.eqb (String a "") "_" = false) as ->
      by (apply String.eqb_neq; congruence).
    assert (String.eqb (String a "") "__" = false) as ->
      by (by apply String.eqb_neq).
    done.
  - destruct (String.eqb_spec (String b s) "_") as [Heq|Hne].
    + injection Heq as -> ->.
      assert (String.eqb (String a "_") "_" = false) as ->
        by (by apply String.eqb_neq).
      destruct (Ascii.eqb_spec a "_") as [->|Hne]; [done|].
      assert (String.eqb (String a "_") "__" = false) as ->
        by (apply String.eqb_neq; congruence).
      done.
    + assert (String.eqb (String b s) ("_" +:+ newline) = false) as ->.
      { apply String.eqb_neq. intros Heq. rewrite Heq in Hs. done. }
      rewrite andb_false_r, orb_false_l.
      assert (String.eqb (String a (String b s)) "_" = false) as ->
        by (apply String.eqb_neq; intros [=]; by destruct s).
      assert (String.eqb (String a (String b s)) "__" = false) as ->.
      { apply String.eqb_neq. intros [= -> -> ->]. done. }
      by rewrite !orb_false_l, !andb_true_r.
Qed.

(** C4, as the specification words it, fails on the name [_]: it ends
    with an underscore and not with two, and is not in-place. *)
Lemma inplace_single_underscore :
  is_inplace "_" = false /\ inplace_convention "_" = true.
Proof. split; reflexivity. Qed.

(** C4, amended. A name is in-place exactly when it starts with [__i], or
    ends with an underscore that a character other than the underscore
    precedes, a final newline apart. For every name other than [_] that
    has no newline this is the specification's convention. *)
Theorem is_inplace_spec :
  (forall name,
     is_inplace name = true <->
     startswith name "__i" = true \/
     exists pre c, c ≠ "_"%char /\
       (name = pre +:+ String c "_" \/ name = pre +:+ String c ("_" +:+ newline)))
  /\
  (forall name,
     name ≠ "_" -> contains name newline = false ->
     is_inplace name = inplace_convention name).
Proof.
  split.
  - intros name. unfold is_inplace.
    by rewrite orb_true_iff, search_underscore_end_spec.
  - intros name Hne Hnl. unfold is_inplace, inplace_convention.
    rewrite search_underscore_end_convention by done.
    apply String.eqb_neq in Hne. rewrite Hne. by rewrite andb_true_r.
Qed.

Lemma is_inplace_spec_witness :
  "add_" ≠ "_" /\ contains "add_" newline = false /\
  is_inplace "add_" = inplace_convention "add_".
Proof.
  split; [done|]. split; [reflexivity|].
  apply (proj2 is_inplace_spec "add_"); [done | reflexivity].
Defined.

(** *** The return arrow *)

Lemma split_cons (s : string) : exists x xs, split s "->" = x :: xs.
Proof. rewrite split_partition. destruct (partition s "->") as [[l r]|]; eauto. Qed.

Lemma split_signature_one_arrow (text l r : string) :
  partition text "->" = Some (l, r) ->
  contains r "->" = false ->
  split_signature text = split_declaration (strip l) (strip r).
Proof.
  intros Hp Hr. unfold split_signature.
  rewrite (partition_Some_contains _ _ _ _ Hp), split_partition, Hp.
  by rewrite split_partition, (contains_false_partition _ _ Hr).
Qed.

Lemma split_signature_more_arrows (text l r : string) :
  partition text "->" = Some (l, r) ->
  contains r "->" = true ->
  split_signature text = Raise ValueError_unpack.
Proof.
  intros Hp Hr. unfold split_signature.
  rewrite (partition_Some_contains _ _ _ _ Hp), split_partition, Hp.
  rewrite split_partition. rewrite partition_contains in Hr.
  destruct (partition r "->") as [[l' r']|]; [|done].
  by destruct (split_cons r') as (x & xs & ->).
Qed.

Lemma compile_record_split_Raise (func_decl : func_record) (e : exn) :
  split_signature (func func_decl) = Raise e -> compile_record func_decl = Raise e.
Proof. intros H. unfold compile_record, parse_signature. by rewrite H. Qed.

(** C2, as the specification words it, fails on a signature with two
    arrows: it is not split at the first one, the record is refused. *)
Lemma two_arrows_not_split_at_first :
  split_signature_first_arrow "f(Tensor x) -> Tensor -> Tensor"
    = Ok ("f", "Tensor x", "Tensor -> Tensor") /\
  split_signature "f(Tensor x) -> Tensor -> Tensor" = Raise ValueError_unpack /\
  compile_record (just_func "f(Tensor x) -> Tensor -> Tensor") = Raise ValueError_unpack.
Proof. repeat split; vm_compute; reflexivity. Qed.

(** C2, amended. The signature is split at every [->] and must have two
    parts. With no [->] the record fails with the error the specification
    calls MissingReturnArrow; with one [->] the text before it is the
    function declaration and the text after it the return specification,
    as a split at the first occurrence gives them; with more than one
    [->] the record fails. *)
Theorem signature_split_on_arrow (func_decl : func_record) :
  (contains (func func_decl) "->" = false ->
   compile_record func_decl = Raise Exception_expected_return /\
   fails_with (compile_record func_decl) MissingReturnArrow)
  /\
  (forall l r,
     partition (func func_decl) "->" = Some (l, r) ->
     contains r "->" = false ->
     split_signature (func func_decl) = split_declaration (strip l) (strip r) /\
     split_signature (func func_decl) = split_signature_first_arrow (func func_decl))
  /\
  (forall l r,
     partition (func func_decl) "->" = Some (l, r) ->
     contains r "->" = true ->
     compile_record func_decl = Raise ValueError_unpack).
Proof.
  repeat split.
  - apply compile_record_split_Raise. unfold split_signature. by rewrite H.
  - exists Exception_expected_return. split; [|done].
    apply compile_record_split_Raise. unfold split_signature. by rewrite H.
  - by apply split_signature_one_arrow.
  - unfold split_signature_first_arrow. rewrite H.
    by apply split_signature_one_arrow.
  - intros l r Hp Hr. apply compile_record_split_Raise.
    by eapply split_signature_more_arrows.
Qed.

Lemma signature_split_on_arrow_witness :
  partition "abs(Tensor self) -> Tensor" "->" = Some ("abs(Tensor self) ", " Tensor") /\
  contains " Tensor" "->" = false /\
  split_signature "abs(Tensor self) -> Tensor" = Ok ("abs", "Tensor self", "Tensor").
Proof.
  split; [vm_compute; reflexivity|]. split; [vm_compute; reflexivity|].
  destruct (signature_split_on_arrow (just_func "abs(Tensor self) -> Tensor"))
    as (_ & Hone & _).
  destruct (Hone "abs(Tensor self) " " Tensor") as [-> _]; vm_compute; reflexivity.
Defined.

(** *** Default values *)

(** C5. Decoding of default values: [true] is refused with the error the
    specification calls DeprecatedLiteral, [True] is the boolean true,
    [[]] is the empty aggregate [{}], [None] alone is the no-value
    sentinel, and [None] as the default of an argument of type [Tensor?]
    is the empty aggregate. *)
Theorem default_literals :
  parse_default "true" = Raise RuntimeError_use_True /\
  fails_with (parse_default "true") DeprecatedLiteral /\
  parse_default "True" = Ok (DBool true) /\
  parse_default "[]" = Ok (DStr "{}") /\
  parse_default "None" = Ok (DStr "c10::nullopt") /\
  (forall is_out_fn func_return kwarg_only arg_idx name,
     contains name "=" = false ->
     exists a,
       parse_argument is_out_fn func_return kwarg_only arg_idx
         "Tensor?" (name +:+ "=None") = Ok a /\
       a_name a = name /\ a_type a = "Tensor" /\ a_is_nullable a = true /\
       a_default a = Some (DStr "{}")).
Proof.
  repeat split; try reflexivity.
  - by exists RuntimeError_use_True.
  - intros is_out_fn func_return kwarg_only arg_idx name Hname.
    unfold parse_argument.
    change (annotated_type "Tensor?") with ("Tensor?", @None string).
    unfold name_and_default.
    rewrite (partition_char_append "=" name "None" Hname).
    eexists. split; [reflexivity|]. by repeat split.
Qed.

Lemma default_literals_witness :
  contains "weight" "=" = false /\
  exists a,
    parse_argument false [] false 0 "Tensor?" "weight=None" = Ok a /\
    a_default a = Some (DStr "{}").
Proof.
  split; [reflexivity|].
  destruct default_literals as (_ & _ & _ & _ & _ & H).
  destruct (H false [] false 0%nat "weight" eq_refl) as (a & Ha & _ & _ & _ & Hd).
  exists a. by split.
Defined.

(** *** Inversion of [run] *)

Lemma parse_signature_Ok (func_decl : func_record) (sg : signature) :
  parse_signature func_decl = Ok sg ->
  exists return_decl,
    split_signature (func func_decl) = Ok (s_fn_name sg, s_args sg, return_decl) /\
    s_name sg = default (s_fn_name sg) (f_name func_decl) /\
    s_inplace sg = is_inplace (s_fn_name sg) /\
    parse_return_arguments return_decl (s_inplace sg) func_decl
      = Ok (s_return_arguments sg) /\
    parse_arguments (s_args sg) func_decl (s_name sg) (s_return_arguments sg)
      (s_inplace sg) = Ok (s_arguments sg).
Proof.
  unfold parse_signature. intros ([[fn_name args] return_decl] & H1 & H)%bind_Ok.
  apply bind_Ok in H as (rets & H2 & H). apply bind_Ok in H as (arguments & H3 & H).
  injection H as <-. simpl. eauto 10.
Qed.

Lemma compile_record_Ok (func_decl : func_record) (d : Declaration) :
  compile_record func_decl = Ok d ->
  exists sg arguments,
    parse_signature func_decl = Ok sg /\
    propagate_field_names (output_positions 0 (s_arguments sg))
      (s_return_arguments sg) (s_arguments sg) = Ok arguments /\
    d_name d = s_name sg /\
    d_inplace d = s_inplace sg /\
    d_return d =
      (if (length (output_positions 0 (s_arguments sg)) =? 0)%nat
       then map ReturnSlot (s_return_arguments sg)
       else map OutputArgument
              (dictionaries (output_positions 0 (s_arguments sg)) arguments)) /\
    d_arguments d =
      match f_arguments func_decl with
      | Some v => Overridden v
      | None => Parsed arguments
      end.
Proof.
  unfold compile_record. intros (sg & H1 & H)%bind_Ok.
  apply bind_Ok in H as (arguments & H2 & H). apply bind_Ok in H as (sparse & H3 & H).
  injection H as <-. simpl. eauto 10.
Qed.

(** *** Functions suffixed with [_out] *)

Lemma variants_not_function_only_false (func_decl : func_record) :
  variants_not_function_only func_decl = false <->
  function_variant_only (f_variants func_decl).
Proof.
  unfold variants_not_function_only, function_variant_only.
  destruct (f_variants func_decl) as [v|]; [|by split; [left|]].
  assert (forall s : string, negb (String.eqb s "function") = false <-> s = "function") as Hs.
  { intros s. by rewrite negb_false_iff, String.eqb_eq. }
  destruct v as [| | |s|[|[| | |s| |] [|]]|];
    try (split; [discriminate | intros [H|[H|[H|H]]]; discriminate H]).
  - rewrite Hs. split; [intros ->; tauto|].
    intros [H|[H|[H|H]]]; congruence.
  - split; [tauto | done].
  - rewrite Hs. split; [intros ->; tauto|].
    intros [H|[H|[H|H]]]; congruence.
Qed.

Lemma parse_arguments_out_variant (args : string) (func_decl : func_record)
    (func_name : string) (func_return : list Return) (inplace : bool) :
  endswith func_name "_out" = true ->
  ¬ function_variant_only (f_variants func_decl) ->
  parse_arguments args func_decl func_name func_return inplace
  = Raise (RuntimeError_out_variant func_name).
Proof.
  intros Hout Hv. unfold parse_arguments. rewrite Hout.
  destruct (variants_not_function_only func_decl) eqn:H; [done|].
  by apply variants_not_function_only_false in H.
Qed.

(** C6. A record whose name ends in [_out] compiles only if its variants
    are omitted, equal to the default, or the function variant; any other
    value makes [parse_arguments], and so the compilation of a record
    whose signature and returns are read, fail with the error the
    specification calls OutVariantWrongVariant. The specification's
    examples behave as it says. *)
Theorem out_function_variant_only :
  (forall func_decl d,
     compile_record func_decl = Ok d ->
     endswith (d_name d) "_out" = true ->
     function_variant_only (f_variants func_decl))
  /\
  (forall args func_decl func_name func_return inplace,
     endswith func_name "_out" = true ->
     ¬ function_variant_only (f_variants func_decl) ->
     parse_arguments args func_decl func_name func_return inplace
       = Raise (RuntimeError_out_variant func_name))
  /\
  (forall func_decl fn_name args return_decl func_return,
     split_signature (func func_decl) = Ok (fn_name, args, return_decl) ->
     parse_return_arguments return_decl (is_inplace fn_name) func_decl = Ok func_return ->
     endswith (default fn_name (f_name func_decl)) "_out" = true ->
     ¬ function_variant_only (f_variants func_decl) ->
     fails_with (compile_record func_decl) OutVariantWrongVariant)
  /\
  fails_with (compile_record (func_with_variants "foo_out(Tensor self) -> Tensor" (YStr "method")))
    OutVariantWrongVariant /\
  is_Ok (compile_record (func_with_variants "foo_out(Tensor self) -> Tensor" (YStr "function")))
    = true /\
  is_Ok (compile_record (just_func "foo_out(Tensor self) -> Tensor")) = true.
Proof.
  split; [|split; [|split; [|split; [|split]]]].
  - intros func_decl d (sg & arguments & Hsg & _ & Hname & _)%compile_record_Ok Hout.
    apply parse_signature_Ok in Hsg as (return_decl & _ & _ & _ & _ & Hargs).
    rewrite Hname in Hout. unfold parse_arguments in Hargs. rewrite Hout in Hargs.
    apply variants_not_function_only_false.
    by destruct (variants_not_function_only func_decl).
  - apply parse_arguments_out_variant.
  - intros func_decl fn_name args return_decl func_return Hsplit Hret Hout Hv.
    exists (RuntimeError_out_variant (default fn_name (f_name func_decl))).
    split; [|done]. unfold compile_record, parse_signature.
    rewrite Hsplit. cbn [bind]. rewrite Hret. cbn [bind].
    by rewrite parse_arguments_out_variant.
  - exists (RuntimeError_out_variant "foo_out"). split; vm_compute; reflexivity.
  - vm_compute. reflexivity.
  - vm_compute. reflexivity.
Qed.

Lemma out_function_variant_only_witness :
  let func_decl := func_with_variants "foo_out(Tensor self) -> Tensor" (YStr "function") in
  is_Ok (compile_record func_decl) = true /\
  function_variant_only (f_variants func_decl).
Proof.
  cbv zeta. split; [vm_compute; reflexivity|].
  apply (proj1 out_function_variant_only
           (func_with_variants "foo_out(Tensor self) -> Tensor" (YStr "function"))
           (from_Ok blank_declaration
              (compile_record
                 (func_with_variants "foo_out(Tensor self) -> Tensor" (YStr "function"))))).
  - vm_compute. reflexivity.
  - vm_compute. reflexivity.
Defined.

(** *** The loop of [parse_arguments] *)

Lemma assert_Ok (b : bool) (e : exn) (u : unit) : assert b e = Ok u -> b = true.
Proof. by destruct b. Qed.

(** Every argument of the result is made by [parse_argument] from one
    piece, in the order of the pieces. *)
Lemma parse_arguments_loop_Ok (is_out_fn : bool) (func_return : list Return)
    (pieces : list string) (arg_idx : nat) (kwarg_only : bool)
    (acc arguments : list Argument) :
  parse_arguments_loop is_out_fn func_return arg_idx pieces kwarg_only acc = Ok arguments ->
  exists new,
    arguments = (acc ++ new)%list /\
    Forall2 (fun p a =>
               exists kw, parse_argument is_out_fn func_return kw p.1.1 p.1.2 p.2 = Ok a)
            (indexed_pieces arg_idx pieces) new.
Proof.
  revert arg_idx kwarg_only acc.
  induction pieces as [|arg pieces IH]; intros arg_idx kwarg_only acc; cbn [parse_arguments_loop indexed_pieces].
  - intros [= <-]. exists []. by rewrite app_nil_r.
  - destruct (map strip (rsplit1 arg " ")) as [|x [|y [|z l]]]; try done.
    + destruct (String.eqb x "*"); [|done].
      intros (_ & _ & H)%bind_Ok. by apply IH in H.
    + intros (a & Ha & H)%bind_Ok. apply IH in H as (new & -> & Hnew).
      exists (a :: new). split; [by rewrite <-app_assoc|].
      constructor; [by exists kwarg_only | done].
Qed.

Lemma parse_arguments_Ok (args : string) (func_decl : func_record)
    (func_name : string) (func_return : list Return) (inplace : bool)
    (arguments : list Argument) :
  parse_arguments args func_decl func_name func_return inplace = Ok arguments ->
  (String.length (strip args) =? 0)%nat = false ->
  parse_arguments_loop (endswith func_name "_out") func_return 0
    (split args ", ") false [] = Ok arguments /\
  (returns_alias inplace func_return = true ->
   find_self func_return 0 arguments false = Ok true).
Proof.
  unfold parse_arguments. intros H Hargs. rewrite Hargs in H.
  destruct (endswith func_name "_out" && variants_not_function_only func_decl); [done|].
  apply bind_Ok in H as (arguments' & Hloop & H).
  destruct (returns_alias inplace func_return).
  - apply bind_Ok in H as (found & Hfind & H).
    apply bind_Ok in H as (u & ->%assert_Ok & [= ->]). by split.
  - injection H as ->. by split.
Qed.

Lemma split_not_nil (a : ascii) (sep' s : string) : split s (String a sep') ≠ [].
Proof. rewrite split_partition. by destruct (partition _ _) as [[??]|]. Qed.

Lemma split_singleton (a : ascii) (sep' s x : string) :
  split s (String a sep') = [x] -> x = s.
Proof.
  rewrite split_partition. destruct (partition _ _) as [[l r]|]; [|by intros [= <-]].
  intros [= _ H]. by apply split_not_nil in H.
Qed.

Lemma startswith_first (u : string) (c c0 : ascii) :
  first u = Some c0 -> startswith u (String c "") = Ascii.eqb c0 c.
Proof.
  destruct u as [|b u]; [done|]. intros [= ->]. cbn [startswith].
  by rewrite startswith_nil, andb_true_r, Ascii.eqb_sym.
Qed.

Lemma endswith_last (u : string) (c cl : ascii) :
  last u = Some cl -> endswith u (String c "") = Ascii.eqb cl c.
Proof.
  induction u as [|b u IH]; [done|]. destruct u as [|b' u].
  - intros [= ->]. cbn [endswith String.eqb]. by destruct (Ascii.eqb cl c).
  - intros H. change (last (String b' u) = Some cl) in H.
    cbn [endswith] in *. rewrite (IH H). cbn [String.eqb].
    by destruct (Ascii.eqb b c).
Qed.

(** The one type [sanitize_types] returns is the text without the
    parentheses around it, sanitized. *)
Lemma sanitize_types_Ok (u typ0 : string) :
  sanitize_types u = Ok [typ0] -> typ0 = sanitize_type (without_parentheses u).
Proof.
  unfold sanitize_types, without_parentheses.
  destruct (first u) as [c0|] eqn:Hc0; [|done].
  destruct (last u) as [cl|] eqn:Hcl; [|done].
  rewrite (startswith_first _ _ _ Hc0), (endswith_last _ _ _ Hcl).
  destruct (Ascii.eqb c0 "(" && Ascii.eqb cl ")"); [|by intros [= <-]].
  destruct (split (inner u) ",") as [|x [|y l]] eqn:Hsplit; [done| |done].
  intros [= <-]. by apply split_singleton in Hsplit as ->.
Qed.

Lemma sanitize_type_nullable (t : string) :
  endswith (sanitize_type t) "?" = endswith t "?".
Proof.
  unfold sanitize_type. destruct (String.eqb_spec t "Generator*") as [->|]; done.
Qed.

(** What the body of the loop stores for a piece, said from the piece:
    the nullability and the type are [stored_nullable] and [stored_type]
    of the type token. *)
Lemma parse_argument_Ok (is_out_fn : bool) (func_return : list Return)
    (kwarg_only : bool) (arg_idx : nat) (t name : string) (a : Argument) :
  parse_argument is_out_fn func_return kwarg_only arg_idx t name = Ok a ->
  (a_is_nullable a = stored_nullable t /\ a_type a = stored_type t) /\
  a_output a = is_out_fn && (arg_idx <? length func_return)%nat /\
  a_annotation a = (annotated_type t).2 /\
  a_kwarg_only a = kwarg_only /\
  a_field_name a = None.
Proof.
  unfold parse_argument, annotated_type, stored_nullable, stored_type, without_annotation.
  destruct (get_annotation t) as [u annotation]. cbn [fst snd].
  destruct (String.eqb_spec u "Generator?") as [->|Hgen]; cbn [negb orb andb];
    intros ([name' default] & Hd & H)%bind_Ok;
    apply bind_Ok in H as (typ & Htyp & H);
    (destruct typ as [|typ0 [|]]; [done| |done]);
    apply bind_Ok in H as ([type size] & Hsize & H);
    injection H as <-; cbn; (split; [|done]).
  - vm_compute in Htyp. injection Htyp as <-. vm_compute in Hsize.
    by injection Hsize as <- _.
  - apply sanitize_types_Ok in Htyp as ->.
    rewrite sanitize_type_nullable. split; [done|].
    revert Hsize. unfold sanitize_type.
    destruct (String.eqb_spec (without_parentheses u) "Generator*") as [_|_].
    + vm_compute. by intros [= <- _].
    + destruct (match_int_size _) as [digits|].
      * destruct (PyNum.int digits); [|done]. by intros [= <- _].
      * by intros [= <- _].
Qed.

(** *** Nullable types *)









(** *** In-place functions *)

Lemma check_self_Ok (func_return : list Return) (arg_idx : nat)
    (argument : Argument) (u : unit) :
  check_self func_return arg_idx argument = Ok u ->
  exists r,
    func_return !! arg_idx = Some r /\
    is_mutable (a_annotation argument) = true /\
    a_annotation argument = r_annotation r /\
    a_name argument = r_name r /\
    a_type argument = r_type r.
Proof.
  unfold check_self. intros (_ & Hm%assert_Ok & H)%bind_Ok.
  destruct (func_return !! arg_idx) as [r|]; [|done].
  apply bind_Ok in H as (_ & Ha%assert_Ok & H).
  apply bind_Ok in H as (_ & Hn%assert_Ok & Ht%assert_Ok).
  exists r. repeat split; try done.
  - by apply bool_decide_eq_true in Ha.
  - by apply String.eqb_eq.
  - by apply String.eqb_eq.
Qed.

(** If the loop ends with [found_self] set, it was set before or an
    argument named [self] passed the assertions against the return slot
    at its own position. *)
Lemma find_self_true (func_return : list Return) (arguments : list Argument)
    (arg_idx : nat) (found_self : bool) :
  find_self func_return arg_idx arguments found_self = Ok true ->
  found_self = true \/
  exists i a r,
    arguments !! i = Some a /\ func_return !! (arg_idx + i)%nat = Some r /\
    a_name a = "self" /\ is_mutable (a_annotation a) = true /\
    a_type a = r_type r /\ a_name a = r_name r /\
    a_annotation a = r_annotation r.
Proof.
  revert arg_idx found_self.
  induction arguments as [|argument rest IH]; intros arg_idx found_self; cbn [find_self].
  - intros [= ->]. by left.
  - destruct (String.eqb_spec (a_name argument) "self") as [Hself|_].
    + intros (u & Hc & _)%bind_Ok. right.
      apply check_self_Ok in Hc as (r & Hr & Hm & Ha & Hn & Ht).
      exists 0%nat, argument, r. rewrite Nat.add_0_r. by repeat split.
    + intros [->|(i & a & r & Ha & Hr & H)]%IH; [by left|]. right.
      exists (S i), a, r. rewrite Nat.add_succ_r. by split.
Qed.

Lemma find_self_absent (func_return : list Return) (arguments : list Argument)
    (arg_idx : nat) (found_self : bool) :
  (forall a, a ∈ arguments -> a_name a ≠ "self") ->
  find_self func_return arg_idx arguments found_self = Ok found_self.
Proof.
  revert arg_idx.
  induction arguments as [|argument rest IH]; intros arg_idx H; cbn [find_self]; [done|].
  destruct (String.eqb_spec (a_name argument) "self") as [Hself|_].
  - destruct (H argument); [by left | done].
  - apply IH. intros a Ha. apply H. by right.
Qed.

Lemma is_mutable_true (annotation : option string) :
  is_mutable annotation = true ->
  exists a, annotation = Some a /\ endswith a "!" = true.
Proof.
  destruct annotation as [a|]; [|done]. cbn [is_mutable].
  intros [_ H]%andb_true_iff. eauto.
Qed.

(** C1, as the specification words it, fails on a signature whose [self]
    is the second argument: the record compiles, and [self] is compared
    with the second return slot, not with the first, which has another
    name and no annotation. *)
Lemma self_compared_at_its_position :
  exists sg r0 rest,
    parse_signature
      (just_func "foo_(Tensor other, Tensor(a!) self) -> (Tensor x, Tensor(a!) self)")
      = Ok sg /\
    is_Ok (compile_record
             (just_func "foo_(Tensor other, Tensor(a!) self) -> (Tensor x, Tensor(a!) self)"))
      = true /\
    s_inplace sg = true /\
    s_return_arguments sg = r0 :: rest /\
    r_type r0 ≠ "void" /\
    forall a, a ∈ s_arguments sg -> a_name a = "self" ->
      ¬ (a_type a = r_type r0 /\ a_name a = r_name r0 /\ a_annotation a = r_annotation r0).
Proof.
  do 3 eexists. split; [vm_compute; reflexivity|].
  split; [vm_compute; reflexivity|]. split; [reflexivity|]. split; [reflexivity|].
  split; [by intros [=]|].
  intros a Ha Hself (_ & Hname & _). rewrite Hself in Hname. by injection Hname.
Qed.

(** C1, amended. When an in-place record with an argument list that is
    not blank compiles and its first return slot is not [void], there is
    an argument named [self] whose annotation ends with [!] and whose
    type, name and annotation are those of the return slot at the
    position of that argument. When the argument list, read without
    the in-place check, has no argument named [self], the record fails
    with the error the specification calls InPlaceSelfMissing. The
    specification's two examples behave as it says. *)
Theorem inplace_self_alias :
  (forall func_decl sg r0 rest,
     parse_signature func_decl = Ok sg ->
     s_inplace sg = true ->
     (String.length (strip (s_args sg)) =? 0)%nat = false ->
     s_return_arguments sg = r0 :: rest ->
     r_type r0 ≠ "void" ->
     exists i a r,
       s_arguments sg !! i = Some a /\ s_return_arguments sg !! i = Some r /\
       a_name a = "self" /\
       (exists annotation, a_annotation a = Some annotation /\ endswith annotation "!" = true) /\
       a_type a = r_type r /\ a_name a = r_name r /\ a_annotation a = r_annotation r)
  /\
  (forall args func_decl func_name func_return arguments,
     parse_arguments args func_decl func_name func_return false = Ok arguments ->
     (String.length (strip args) =? 0)%nat = false ->
     returns_alias true func_return = true ->
     (forall a, a ∈ arguments -> a_name a ≠ "self") ->
     parse_arguments args func_decl func_name func_return true
       = Raise AssertionError_found_self /\
     fails_with (parse_arguments args func_decl func_name func_return true)
       InPlaceSelfMissing)
  /\
  is_Ok (compile_record (just_func "add_(Tensor(a!) self, Tensor other) -> Tensor(a!)")) = true
  /\
  fails_with (compile_record (just_func "add_(Tensor self, Tensor other) -> Tensor(a!)"))
    InPlaceSelfMissing.
Proof.
  split; [|split; [|split]].
  - intros func_decl sg r0 rest Hsg Hin Hargs Hret Hvoid.
    apply parse_signature_Ok in Hsg as (return_decl & _ & _ & _ & _ & Hparse).
    apply parse_arguments_Ok in Hparse as [_ Hfind]; [|done].
    assert (returns_alias (s_inplace sg) (s_return_arguments sg) = true) as Halias.
    { unfold returns_alias. rewrite Hin, Hret. cbn [andb].
      apply negb_true_iff. by apply String.eqb_neq. }
    destruct (find_self_true _ _ _ _ (Hfind Halias))
      as [?|(i & a & r & Ha & Hr & Hs & Hm & Ht & Hn & Hann)]; [done|].
    exists i, a, r. repeat split; try done.
    by apply is_mutable_true.
  - intros args func_decl func_name func_return arguments Hparse Hargs Halias Hno.
    assert (parse_arguments args func_decl func_name func_return true
            = Raise AssertionError_found_self) as Hfail.
    { pose proof Hparse as [Hloop _]%parse_arguments_Ok; [|done].
      unfold parse_arguments in *. rewrite Hargs in *.
      destruct (endswith func_name "_out" && variants_not_function_only func_decl); [done|].
      rewrite Hloop. cbn [bind]. rewrite Halias.
      by rewrite find_self_absent. }
    split; [done|]. exists AssertionError_found_self. by split.
  - vm_compute. reflexivity.
  - exists AssertionError_self_mutable. split; vm_compute; reflexivity.
Qed.

Lemma inplace_self_alias_witness :
  exists sg r0 i a r,
    parse_signature (just_func "add_(Tensor(a!) self, Tensor other) -> Tensor(a!)") = Ok sg /\
    s_inplace sg = true /\
    (String.length (strip (s_args sg)) =? 0)%nat = false /\
    s_return_arguments sg = [r0] /\
    r_type r0 ≠ "void" /\
    s_arguments sg !! i = Some a /\ s_return_arguments sg !! i = Some r /\
    a_name a = "self" /\ a_annotation a = r_annotation r.
Proof.
  destruct (proj1 inplace_self_alias
              (just_func "add_(Tensor(a!) self, Tensor other) -> Tensor(a!)")
              {| s_fn_name := "add_"; s_args := "Tensor(a!) self, Tensor other";
                 s_name := "add_"; s_inplace := true;
                 s_return_arguments :=
                   [{| r_type := "Tensor"; r_name := "self"; r_field_name := None;
                       r_annotation := Some "a!" |}];
                 s_arguments :=
                   [{| a_type := "Tensor"; a_name := "self"; a_is_nullable := false;
                       a_size := None; a_default := None; a_output := false;
                       a_kwarg_only := false; a_annotation := Some "a!";
                       a_field_name := None |};
                    {| a_type := "Tensor"; a_name := "other"; a_is_nullable := false;
                       a_size := None; a_default := None; a_output := false;
                       a_kwarg_only := false; a_annotation := None;
                       a_field_name := None |}] |}
              {| r_type := "Tensor"; r_name := "self"; r_field_name := None;
                 r_annotation := Some "a!" |}
              [] ltac:(vm_compute; reflexivity) eq_refl ltac:(vm_compute; reflexivity) eq_refl)
    as (i & a & r & Ha & Hr & Hs & _ & _ & _ & Hann).
  - by intros [=].
  - do 5 eexists. split; [vm_compute; reflexivity|].
    cbn [s_inplace s_args s_return_arguments s_arguments].
    split; [reflexivity|]. split; [vm_compute; reflexivity|]. split; [reflexivity|].
    split; [by intros [=]|]. split; [exact Ha|]. split; [exact Hr|]. by split.
Defined.

(** *** Output marks *)

(** What the loop does mark: an argument is an output exactly when the
    name of the function ends in [_out] and the index of its piece among
    all the pieces, the separator included, is below the number of return
    slots. No argument of another function is marked. *)
Lemma output_marks_by_piece_index (args : string) (func_decl : func_record)
    (func_name : string) (func_return : list Return) (inplace : bool)
    (arguments : list Argument) :
  parse_arguments args func_decl func_name func_return inplace = Ok arguments ->
  (String.length (strip args) =? 0)%nat = false ->
  Forall2 (fun p a =>
             a_output a
             = endswith func_name "_out" && (p.1.1 <? length func_return)%nat)
          (argument_pieces args) arguments.
Proof.
  intros H Hargs. apply parse_arguments_Ok in H as [H _]; [|done].
  apply parse_arguments_loop_Ok in H as (new & -> & H). rewrite app_nil_l.
  eapply Forall2_impl; [exact H|].
  intros [[i t] name] a [kw Ha]. by apply parse_argument_Ok in Ha as (_ & ? & _).
Qed.

Lemma no_output_marks (args : string) (func_decl : func_record)
    (func_name : string) (func_return : list Return) (inplace : bool)
    (arguments : list Argument) :
  parse_arguments args func_decl func_name func_return inplace = Ok arguments ->
  endswith func_name "_out" = false ->
  Forall (fun a => a_output a = false) arguments.
Proof.
  intros H Hout.
  destruct (String.length (strip args) =? 0)%nat eqn:Hargs.
  - unfold parse_arguments in H. rewrite Hout, Hargs in H. cbn in H.
    injection H as <-. constructor.
  - apply output_marks_by_piece_index in H; [|done]. rewrite Hout in H.
    induction H as [|p a ps arguments Hp _ IH]; constructor; [done | exact IH].
Qed.

(** C7 fails on a list whose outputs come after the separator [*]: the
    index that is compared with the number of return slots counts the
    separator, so that with two return slots and two arguments only the
    first argument is marked. *)
Theorem out_marks_after_separator :
  exists sg,
    parse_signature (just_func "foo_out(*, Tensor a, Tensor b) -> (Tensor, Tensor)") = Ok sg /\
    is_Ok (compile_record (just_func "foo_out(*, Tensor a, Tensor b) -> (Tensor, Tensor)")) = true /\
    endswith (s_name sg) "_out" = true /\
    length (s_return_arguments sg) = 2%nat /\
    map a_name (s_arguments sg) = ["a"; "b"] /\
    map a_output (s_arguments sg) = [true; false].
Proof. eexists. split; [vm_compute; reflexivity|]. repeat split; vm_compute; reflexivity. Qed.

(** *** Returns of a declaration *)

Lemma output_positions_bounds (arguments : list Argument) (off p : nat) :
  p ∈ output_positions off arguments -> (off <= p < off + length arguments)%nat.
Proof.
  revert off. induction arguments as [|a rest IH]; intros off; cbn [output_positions].
  - by intros ?%elem_of_nil.
  - cbn [length]. destruct (a_output a).
    + intros [->|Hp%IH]%elem_of_cons; lia.
    + intros Hp%IH. lia.
Qed.

Lemma output_positions_NoDup (arguments : list Argument) (off : nat) :
  NoDup (output_positions off arguments).
Proof.
  revert off. induction arguments as [|a rest IH]; intros off; cbn [output_positions].
  - constructor.
  - destruct (a_output a); [|apply IH].
    constructor; [|apply IH]. intros H%output_positions_bounds. lia.
Qed.

(** The dictionaries at the output positions are the arguments marked as
    output, in order. *)
Lemma dictionaries_output_positions (pre arguments : list Argument) :
  dictionaries (output_positions (length pre) arguments) (pre ++ arguments)
  = filter (fun a => a_output a = true) arguments.
Proof.
  revert pre. induction arguments as [|a rest IH]; intros pre; cbn [output_positions].
  - done.
  - specialize (IH (pre ++ [a])%list).
    rewrite length_app, Nat.add_1_r, <-app_assoc in IH. cbn [app] in IH.
    rewrite filter_cons. destruct (a_output a) eqn:Ha.
    + rewrite decide_True by done. unfold dictionaries in *. cbn [omap list_omap].
      rewrite list_lookup_middle by done. by rewrite IH.
    + rewrite decide_False by done. apply IH.
Qed.

Lemma output_positions_fmap (l1 l2 : list Argument) (off : nat) :
  a_output <$> l1 = a_output <$> l2 ->
  output_positions off l1 = output_positions off l2.
Proof.
  revert l2 off. induction l1 as [|a l1 IH]; intros [|b l2] off; try done.
  rewrite !fmap_cons. intros [= Hab Hl]. cbn [output_positions]. rewrite Hab.
  by rewrite (IH l2 (S off) Hl).
Qed.

Lemma alter_set_field_name_output (fn : string) (pos : nat) (store : list Argument) :
  a_output <$> alter (set_field_name fn) pos store = a_output <$> store.
Proof.
  revert pos. induction store as [|a store IH]; intros [|pos]; try done.
  cbn [alter list_alter]. rewrite !fmap_cons. f_equal. apply IH.
Qed.

Lemma dictionaries_lookup (positions : list nat) (store : list Argument) (k : nat) :
  (forall p, p ∈ positions -> (p < length store)%nat) ->
  dictionaries positions store !! k = positions !! k ≫= (fun p => store !! p).
Proof.
  revert k. induction positions as [|p positions IH]; intros k Hvalid; [done|].
  unfold dictionaries in *. cbn [omap list_omap].
  destruct (lookup_lt_is_Some_2 store p) as [x Hx]; [apply Hvalid; by left|].
  rewrite Hx. destruct k as [|k]; [done|]. cbn [lookup list_lookup].
  apply IH. intros q Hq. apply Hvalid. by right.
Qed.

Lemma dictionaries_alter (f : Argument -> Argument) (positions : list nat)
    (store : list Argument) (i pos : nat) :
  NoDup positions ->
  (forall p, p ∈ positions -> (p < length store)%nat) ->
  positions !! i = Some pos ->
  dictionaries positions (alter f pos store) = alter f i (dictionaries positions store).
Proof.
  intros Hnd Hvalid Hi. apply list_eq. intros k.
  rewrite dictionaries_lookup by (intros p Hp; rewrite length_alter; by apply Hvalid).
  destruct (decide (k = i)) as [->|Hne].
  - rewrite list_lookup_alter_eq, dictionaries_lookup, Hi by done. cbn.
    by rewrite list_lookup_alter_eq.
  - rewrite list_lookup_alter_ne, dictionaries_lookup by done.
    destruct (positions !! k) as [q|] eqn:Hk; [|done]. cbn.
    rewrite list_lookup_alter_ne; [done|].
    intros <-. apply Hne. by eapply NoDup_lookup.
Qed.

(** The loop of [propagate_field_names] leaves the first [i] output
    arguments as they are and puts the field names of the return slots on
    the others, by position. *)
Lemma propagate_loop_Ok (positions : list nat) (return_arguments : list Return)
    (i : nat) (store store' : list Argument) :
  NoDup positions ->
  (forall p, p ∈ positions -> (p < length store)%nat) ->
  propagate_loop positions i return_arguments store = Ok store' ->
  dictionaries positions store'
  = (firstn i (dictionaries positions store)
     ++ with_field_names return_arguments (skipn i (dictionaries positions store)))%list
  /\ a_output <$> store' = a_output <$> store.
Proof.
  intros Hnd. revert i store.
  induction return_arguments as [|r rest IH]; intros i store Hvalid; cbn [propagate_loop].
  - intros [= <-]. split; [|done].
    assert (forall l : list Argument, with_field_names [] l = l) as -> by (by intros []).
    by rewrite take_drop.
  - destruct (r_field_name r) as [fn|] eqn:Hfn.
    + destruct (positions !! i) as [pos|] eqn:Hi; [|done].
      intros [Hd Ho]%IH; [|intros p Hp; rewrite length_alter; by apply Hvalid].
      rewrite alter_set_field_name_output in Ho. split; [|done].
      rewrite Hd, (dictionaries_alter _ _ _ i pos) by done.
      assert (is_Some (dictionaries positions store !! i)) as [o Ho'].
      { rewrite dictionaries_lookup, Hi by done. cbn.
        apply lookup_lt_is_Some_2, Hvalid. by eapply list_elem_of_lookup_2. }
      rewrite (take_S_r _ _ (set_field_name fn o))
        by (by rewrite list_lookup_alter_eq, Ho').
      rewrite take_alter_ge, drop_alter_lt by lia.
      rewrite (drop_S _ _ _ Ho'). cbn [with_field_names]. rewrite Hfn.
      by rewrite <-app_assoc.
    + intros [Hd Ho]%IH; [|done]. split; [|done]. rewrite Hd.
      destruct (dictionaries positions store !! i) as [o|] eqn:Ho'.
      * rewrite (take_S_r _ _ o), (drop_S _ _ _ Ho') by done.
        cbn [with_field_names]. rewrite Hfn. by rewrite <-app_assoc.
      * apply lookup_ge_None in Ho'.
        rewrite !take_ge, !drop_ge by lia.
        by destruct rest.
Qed.

Lemma output_positions_nil (arguments : list Argument) (off : nat) :
  output_positions off arguments = [] <->
  filter (fun a => a_output a = true) arguments = [].
Proof.
  revert off. induction arguments as [|a rest IH]; intros off; cbn [output_positions]; [done|].
  rewrite filter_cons. destruct (a_output a) eqn:Ha.
  - by rewrite decide_True by done.
  - rewrite decide_False by done. apply IH.
Qed.

(** What [with_field_names] does, field by field: an output argument
    keeps every key but ['field_name'], which becomes the explicit field
    name of the return slot at its position. *)
Lemma with_field_names_same (return_arguments : list Return)
    (output_arguments : list Argument) :
  Forall2 same_but_field_name output_arguments
    (with_field_names return_arguments output_arguments).
Proof.
  assert (forall o, same_but_field_name o o) as Hrefl by (by intros o; repeat split).
  revert return_arguments.
  induction output_arguments as [|o os IH]; intros [|r rs]; cbn [with_field_names].
  - constructor.
  - constructor.
  - apply Forall2_same_length_lookup_2; [done|]. intros i x y Hx Hy.
    rewrite Hx in Hy. injection Hy as <-. apply Hrefl.
  - constructor; [|apply IH]. destruct (r_field_name r); [by repeat split | apply Hrefl].
Qed.

Lemma with_field_names_lookup (return_arguments : list Return)
    (output_arguments : list Argument) (i : nat) (o : Argument) :
  Forall (fun a => a_field_name a = None) output_arguments ->
  with_field_names return_arguments output_arguments !! i = Some o ->
  a_field_name o = field_name_at return_arguments i.
Proof.
  unfold field_name_at. revert return_arguments i.
  induction output_arguments as [|o' os IH]; intros [|r rs] i Hnone; cbn [with_field_names].
  - done.
  - done.
  - intros Hi. rewrite lookup_nil. cbn.
    rewrite Forall_forall in Hnone. apply Hnone. by eapply list_elem_of_lookup_2.
  - apply Forall_cons in Hnone as [Ho Hos]. destruct i as [|i]; cbn [lookup list_lookup].
    + intros [= <-]. cbn. by destruct (r_field_name r).
    + by apply IH.
Qed.

(** The arguments [parse_arguments] makes have no field name. *)
Lemma parsed_field_names (args : string) (func_decl : func_record)
    (func_name : string) (func_return : list Return) (inplace : bool)
    (arguments : list Argument) :
  parse_arguments args func_decl func_name func_return inplace = Ok arguments ->
  Forall (fun a => a_field_name a = None) arguments.
Proof.
  intros H. destruct (String.length (strip args) =? 0)%nat eqn:Hargs.
  - unfold parse_arguments in H. rewrite Hargs in H.
    destruct (endswith func_name "_out" && variants_not_function_only func_decl); [done|].
    injection H as <-. constructor.
  - apply parse_arguments_Ok in H as [H _]; [|done].
    apply parse_arguments_loop_Ok in H as (new & -> & H). rewrite app_nil_l.
    induction H as [|[[i t] name] a ps arguments [kw Ha] _ IH]; constructor; [|exact IH].
    by apply parse_argument_Ok in Ha as (_ & _ & _ & _ & ?).
Qed.

(** An argument is marked as output only in a function whose name ends
    in [_out]. *)
Lemma output_mark_needs_out (args : string) (func_decl : func_record)
    (func_name : string) (func_return : list Return) (inplace : bool)
    (arguments : list Argument) :
  parse_arguments args func_decl func_name func_return inplace = Ok arguments ->
  filter (fun a => a_output a = true) arguments ≠ [] ->
  endswith func_name "_out" = true.
Proof.
  intros H Hout. destruct (endswith func_name "_out") eqn:Hname; [done|].
  destruct Hout. destruct (String.length (strip args) =? 0)%nat eqn:Hargs.
  - unfold parse_arguments in H. rewrite Hname, Hargs in H. cbn in H.
    by injection H as <-.
  - apply output_marks_by_piece_index in H; [|done]. rewrite Hname in H.
    induction H as [|p a ps arguments Hp _ IH]; [done|].
    rewrite filter_cons, decide_False; [exact IH|]. cbn in Hp. congruence.
Qed.

(** C10, as it is worded, takes a function whose name ends in [_out]
    and that has a return slot to have an argument marked as output. It
    need not: with a blank argument list, or with its arguments after
    the separator, such a function compiles with no argument marked, and
    the returns of its declaration are the parsed return slots. *)
Lemma out_variant_without_output_argument :
  (exists d sg,
     compile_record (just_func "foo_out() -> Tensor") = Ok d /\
     parse_signature (just_func "foo_out() -> Tensor") = Ok sg /\
     endswith (s_name sg) "_out" = true /\
     length (s_return_arguments sg) = 1%nat /\
     s_arguments sg = [] /\
     d_return d = ReturnSlot <$> s_return_arguments sg) /\
  (exists d sg,
     compile_record (just_func "foo_out(*, Tensor a) -> Tensor") = Ok d /\
     parse_signature (just_func "foo_out(*, Tensor a) -> Tensor") = Ok sg /\
     endswith (s_name sg) "_out" = true /\
     length (s_return_arguments sg) = 1%nat /\
     a_name <$> s_arguments sg = ["a"] /\
     a_output <$> s_arguments sg = [false] /\
     d_return d = ReturnSlot <$> s_return_arguments sg).
Proof.
  split; (do 2 eexists; split; [vm_compute; reflexivity|];
          split; [vm_compute; reflexivity|]);
    repeat split; vm_compute; reflexivity.
Qed.

(** C10, amended. The returns of a declaration are the parsed return
    slots when no argument is marked as output. When some argument is
    marked, which needs the name of the function to end in [_out], the
    returns are the arguments marked as output, in the order of the
    arguments, and not the return slots: each is the argument as it was
    parsed but for its field name, which is the explicit field name of
    the return slot at the same position among the returns, and is
    absent when there is no such slot or the slot has no field name.
    They are the very dictionaries of the declaration's arguments: those
    of its arguments that are marked as output. *)
Theorem declaration_returns (func_decl : func_record) (d : Declaration) :
  compile_record func_decl = Ok d ->
  exists sg,
    parse_signature func_decl = Ok sg /\
    (filter (fun a => a_output a = true) (s_arguments sg) = [] ->
     d_return d = ReturnSlot <$> s_return_arguments sg) /\
    (filter (fun a => a_output a = true) (s_arguments sg) ≠ [] ->
     endswith (s_name sg) "_out" = true /\
     exists returns,
       d_return d = OutputArgument <$> returns /\
       Forall2 same_but_field_name
         (filter (fun a => a_output a = true) (s_arguments sg)) returns /\
       (forall i o, returns !! i = Some o ->
          a_field_name o = field_name_at (s_return_arguments sg) i)) /\
    (f_arguments func_decl = None ->
     exists arguments,
       d_arguments d = Parsed arguments /\
       a_output <$> arguments = a_output <$> s_arguments sg /\
       (filter (fun a => a_output a = true) (s_arguments sg) ≠ [] ->
        d_return d = OutputArgument <$> filter (fun a => a_output a = true) arguments)).
Proof.
  intros (sg & arguments & Hsg & Hprop & _ & _ & Hret & Hargs)%compile_record_Ok.
  exists sg. split; [done|].
  pose proof Hsg as (return_decl & _ & _ & _ & _ & Hparse)%parse_signature_Ok.
  pose proof (dictionaries_output_positions [] (s_arguments sg)) as Hdict.
  cbn [length app] in Hdict.
  pose proof (output_positions_nil (s_arguments sg) 0) as Hnil.
  destruct (output_positions 0 (s_arguments sg)) as [|p ps] eqn:Hpos.
  - cbn in Hret, Hprop. injection Hprop as <-.
    split; [done|]. split; [intros H; destruct H; by apply Hnil|].
    intros Hnone. rewrite Hnone in Hargs. exists (s_arguments sg).
    split; [done|]. split; [done|]. intros H; destruct H; by apply Hnil.
  - cbn [length Nat.eqb] in Hret. cbn [propagate_field_names] in Hprop.
    rewrite <-Hpos in *.
    apply propagate_loop_Ok in Hprop as [Hd Ho];
      [|apply output_positions_NoDup
       |intros q Hq%output_positions_bounds; lia].
    rewrite Hdict in Hd. cbn [firstn skipn app] in Hd.
    split; [intros H%Hnil; by rewrite H in Hpos|].
    split.
    + intros Hout. split; [by eapply output_mark_needs_out|].
      exists (with_field_names (s_return_arguments sg)
                (filter (fun a => a_output a = true) (s_arguments sg))).
      split; [by rewrite Hret, Hd|]. split; [apply with_field_names_same|].
      intros i o. apply with_field_names_lookup.
      pose proof (parsed_field_names _ _ _ _ _ _ Hparse) as Hnone.
      rewrite Forall_forall in *. intros x [_ Hx]%list_elem_of_filter.
      by apply Hnone.
    + intros Hnone. rewrite Hnone in Hargs. exists arguments.
      split; [done|]. split; [done|]. intros _.
      rewrite Hret. f_equal.
      rewrite <-(output_positions_fmap _ _ 0 Ho).
      apply (dictionaries_output_positions [] arguments).
Qed.

Lemma declaration_returns_witness :
  let func_decl :=
    just_func "max_out(Tensor(a!) max, Tensor(b!) max_values, Tensor self, int dim) -> (Tensor(a!) values, Tensor(b!) indices)" in
  let d := from_Ok blank_declaration (compile_record func_decl) in
  compile_record func_decl = Ok d /\
  exists sg returns,
    parse_signature func_decl = Ok sg /\
    d_return d = OutputArgument <$> returns /\
    Forall2 same_but_field_name
      (filter (fun a => a_output a = true) (s_arguments sg)) returns /\
    (forall i o, returns !! i = Some o ->
       a_field_name o = field_name_at (s_return_arguments sg) i) /\
    a_name <$> returns = ["max"; "max_values"] /\
    a_field_name <$> returns = [Some "values"; Some "indices"].
Proof.
  cbv zeta.
  assert (compile_record
            (just_func "max_out(Tensor(a!) max, Tensor(b!) max_values, Tensor self, int dim) -> (Tensor(a!) values, Tensor(b!) indices)")
          = Ok (from_Ok blank_declaration
                  (compile_record
                     (just_func "max_out(Tensor(a!) max, Tensor(b!) max_values, Tensor self, int dim) -> (Tensor(a!) values, Tensor(b!) indices)"))))
    as Hrun by (apply Ok_from_Ok; vm_compute; reflexivity).
  split; [exact Hrun|].
  destruct (declaration_returns _ _ Hrun) as (sg & Hsg & _ & Hout & _).
  assert (Ok sg = parse_signature
            (just_func "max_out(Tensor(a!) max, Tensor(b!) max_values, Tensor self, int dim) -> (Tensor(a!) values, Tensor(b!) indices)"))
    as Hsg' by done.
  vm_compute in Hsg'. injection Hsg' as ->.
  destruct Hout as (_ & returns & Hret & Hsame & Hfield); [vm_compute; discriminate|].
  eexists. exists returns. split; [exact Hsg|]. split; [exact Hret|].
  split; [exact Hsame|]. split; [exact Hfield|].
  vm_compute in Hret.
  destruct returns as [|r1 [|r2 [|r3 returns]]]; try discriminate Hret.
  injection Hret as <- <-. split; vm_compute; reflexivity.
Defined.

End NativeParseFacts.

(** ** Properties of the wrapper generator *)

Module GenerateWrapperFacts.
Import PyStr PyStrFacts ResultFacts GenerateWrapper.

Lemma startswith_slash (s : string) :
  startswith s "/" = true -> exists s', s = String "/" s'.
Proof.
  destruct s as [|c s']; cbn [startswith]; [discriminate|].
  destruct (Ascii.eqb_spec "/" c) as [<-|]; [eauto | simpl; discriminate].
Qed.

Lemma os_path_join_inj (f g : string) :
  os_path_join "wrappers" f = os_path_join "wrappers" g -> f = g.
Proof.
  unfold os_path_join. simpl.
  destruct (startswith f "/") eqn:Hf, (startswith g "/") eqn:Hg; intros H.
  - done.
  - apply startswith_slash in Hf as [f' ->]. discriminate.
  - apply startswith_slash in Hg as [g' ->]. discriminate.
  - by simplify_eq.
Qed.

Lemma os_mkdir_Ok (p : string) (fs fs' : filesystem) :
  os_mkdir p fs = Ok fs' -> fs !! p = None /\ fs' = <[p := Dir]> fs.
Proof.
  unfold os_mkdir. destruct (fs !! p); [discriminate|].
  intros (_ & _ & H)%bind_Ok. by simplify_eq.
Qed.

Lemma os_mkdir_subseteq (p : string) (fs fs' : filesystem) :
  os_mkdir p fs = Ok fs' -> fs ⊆ fs'.
Proof. intros [Hp ->]%os_mkdir_Ok. by apply insert_subseteq. Qed.

Lemma mkdir_missing_subseteq (ps : list string) (fs fs' : filesystem) :
  mkdir_missing ps fs = Ok fs' -> fs ⊆ fs'.
Proof.
  revert fs. induction ps as [|p ps IH]; simpl; intros fs H.
  - by simplify_eq.
  - destruct (fs !! p) eqn:Hp; [by apply IH|].
    apply bind_Ok in H as (fs1 & H1 & H2).
    etrans; [by eapply os_mkdir_subseteq | by apply IH].
Qed.

Lemma os_makedirs_Ok (name : string) (fs fs' : filesystem) :
  os_makedirs name fs = Ok fs' -> fs ⊆ fs' /\ fs' !! name = Some Dir.
Proof.
  unfold os_makedirs. intros (fs1 & H1 & H2)%bind_Ok.
  apply mkdir_missing_subseteq in H1.
  pose proof (os_mkdir_subseteq _ _ _ H2).
  apply os_mkdir_Ok in H2 as [_ ->].
  split; [by etrans | apply lookup_insert_eq].
Qed.

Lemma open_w_Ok (p : string) (fs fs' : filesystem) :
  open_w p fs = Ok fs' -> fs !! p ≠ Some Dir /\ fs' = <[p := File EmptyString]> fs.
Proof.
  unfold open_w. intros H. split.
  - intros Hp. rewrite Hp in H. discriminate.
  - destruct (fs !! p) as [[|c]|]; [discriminate| |];
      apply bind_Ok in H as (_ & _ & H); by simplify_eq.
Qed.

Lemma print_file (text p : string) (fs : filesystem) (content : string) :
  print text p (<[p := File content]> fs)
  = <[p := File (content +:+ text +:+ newline)]> fs.
Proof. unfold print. by rewrite lookup_insert_eq, insert_insert_eq. Qed.

Lemma print_wrapper_content (condition : option string) (filename p : string)
    (fs : filesystem) :
  print_wrapper condition filename p (<[p := File EmptyString]> fs)
  = <[p := File (wrapper_content condition filename)]> fs.
Proof.
  unfold print_wrapper, wrapper_content.
  destruct condition as [c|]; cbv zeta; rewrite !print_file; do 2 f_equal;
    simpl unlines; by rewrite ?append_assoc, ?append_nil_r.
Qed.

(** One pass of the loop body: directories may be added, nothing else
    changes, and the wrapper is put at its path. *)
Lemma write_wrapper_Ok (condition : option string) (filename : string)
    (fs fs' : filesystem) :
  write_wrapper condition filename fs = Ok fs' ->
  exists fs0,
    fs ⊆ fs0 /\
    fs0 !! os_path_dirname (os_path_join "wrappers" filename) = Some Dir /\
    fs0 !! os_path_join "wrappers" filename ≠ Some Dir /\
    fs' = <[os_path_join "wrappers" filename := File (wrapper_content condition filename)]> fs0.
Proof.
  unfold write_wrapper. intros (fs0 & H0 & H)%bind_Ok.
  apply bind_Ok in H as (fs1 & H1 & H).
  apply open_w_Ok in H1 as [Hnd ->]. rewrite print_wrapper_content in H.
  exists fs0. repeat split; [| |done|by simplify_eq].
  - unfold os_path_isdir in H0. case_bool_decide; simpl in H0.
    + by simplify_eq.
    + by apply os_makedirs_Ok in H0 as [? _].
  - unfold os_path_isdir in H0. case_bool_decide; simpl in H0.
    + by simplify_eq.
    + by apply os_makedirs_Ok in H0 as [_ ?].
Qed.

Lemma generate_entries (sources : list (option string * list string))
    (fs : filesystem) :
  generate sources fs = write_entries (entries sources) fs.
Proof.
  revert fs. induction sources as [|[condition filenames] rest IH]; intros fs; [done|].
  simpl. revert fs. induction filenames as [|filename fl IHf]; intros fs; simpl.
  - apply IH.
  - destruct (write_wrapper condition filename fs) as [fs1|e]; simpl; [apply IHf | done].
Qed.

Lemma write_entries_app (l1 l2 : list (option string * string))
    (fs fs' : filesystem) :
  write_entries (l1 ++ l2)%list fs = Ok fs' ->
  exists fs1, write_entries l1 fs = Ok fs1 /\ write_entries l2 fs1 = Ok fs'.
Proof.
  revert fs. induction l1 as [|[c f] l1 IH]; intros fs; simpl; [eauto|].
  intros (fs0 & H0 & H)%bind_Ok. rewrite H0. simpl. by apply IH.
Qed.

(** A directory stays a directory. *)
Lemma write_wrapper_dir (condition : option string) (filename q : string)
    (fs fs' : filesystem) :
  write_wrapper condition filename fs = Ok fs' ->
  fs !! q = Some Dir -> fs' !! q = Some Dir.
Proof.
  intros (fs0 & Hsub & _ & Hnd & ->)%write_wrapper_Ok Hq.
  eapply lookup_weaken in Hq; [|done].
  rewrite lookup_insert_ne; [done|]. intros <-. by apply Hnd.
Qed.

(** What there is at a path stays, unless the wrapper goes there. *)
Lemma write_wrapper_other (condition : option string) (filename q : string)
    (fs fs' : filesystem) (x : node) :
  write_wrapper condition filename fs = Ok fs' ->
  q ≠ os_path_join "wrappers" filename ->
  fs !! q = Some x -> fs' !! q = Some x.
Proof.
  intros (fs0 & Hsub & _ & _ & ->)%write_wrapper_Ok Hne Hq.
  eapply lookup_weaken in Hq; [|done].
  by rewrite lookup_insert_ne.
Qed.

Lemma write_wrapper_content (condition : option string) (filename : string)
    (fs fs' : filesystem) :
  write_wrapper condition filename fs = Ok fs' ->
  fs' !! os_path_join "wrappers" filename
  = Some (File (wrapper_content condition filename)).
Proof.
  intros (fs0 & _ & _ & _ & ->)%write_wrapper_Ok. apply lookup_insert_eq.
Qed.

Lemma write_wrapper_parent (condition : option string) (filename : string)
    (fs fs' : filesystem) :
  write_wrapper condition filename fs = Ok fs' ->
  fs' !! os_path_dirname (os_path_join "wrappers" filename) = Some Dir.
Proof.
  intros (fs0 & _ & Hd & Hnd & ->)%write_wrapper_Ok.
  rewrite lookup_insert_ne; [done|]. intros Heq. apply Hnd. by rewrite Heq.
Qed.

Lemma write_entries_dir (es : list (option string * string)) (q : string)
    (fs fs' : filesystem) :
  write_entries es fs = Ok fs' -> fs !! q = Some Dir -> fs' !! q = Some Dir.
Proof.
  revert fs. induction es as [|[c f] es IH]; intros fs; simpl.
  - by intros [= ->].
  - intros (fs1 & H1 & H)%bind_Ok Hq. eapply IH; [done|].
    by eapply write_wrapper_dir.
Qed.

Lemma write_entries_other (es : list (option string * string)) (f : string)
    (fs fs' : filesystem) (x : node) :
  write_entries es fs = Ok fs' ->
  f ∉ es.*2 ->
  fs !! os_path_join "wrappers" f = Some x ->
  fs' !! os_path_join "wrappers" f = Some x.
Proof.
  revert fs. induction es as [|[c g] es IH]; intros fs; simpl.
  - by intros [= ->].
  - intros (fs1 & H1 & H)%bind_Ok Hnot Hq.
    apply not_elem_of_cons in Hnot as [Hne Hnot].
    eapply IH; [done..|].
    eapply write_wrapper_other; [done| |done].
    by intros ?%os_path_join_inj.
Qed.

(** Where the wrapper and its directory are already as the script
    leaves them, a pass of the loop body changes nothing. *)
Lemma write_wrapper_fixed (condition : option string) (filename : string)
    (fs : filesystem) :
  fs !! os_path_dirname (os_path_join "wrappers" filename) = Some Dir ->
  fs !! os_path_join "wrappers" filename
    = Some (File (wrapper_content condition filename)) ->
  write_wrapper condition filename fs = Ok fs.
Proof.
  intros Hd Hf. unfold write_wrapper, os_path_isdir.
  rewrite bool_decide_eq_true_2 by done. simpl.
  unfold open_w, check_parent. rewrite Hf, Hd.
  destruct (all_slashes _); simpl; rewrite print_wrapper_content;
    f_equal; by apply insert_id.
Qed.

Lemma write_entries_fixed (es : list (option string * string)) (fs : filesystem) :
  (forall c f, (c, f) ∈ es ->
     fs !! os_path_dirname (os_path_join "wrappers" f) = Some Dir /\
     fs !! os_path_join "wrappers" f = Some (File (wrapper_content c f))) ->
  write_entries es fs = Ok fs.
Proof.
  induction es as [|[c f] es IH]; intros H; simpl; [done|].
  destruct (H c f) as [Hd Hf]; [by left|].
  rewrite write_wrapper_fixed by done. simpl.
  apply IH. intros c' f' Hin. apply H. by right.
Qed.

(** After a run over entries with distinct files, every wrapper is in
    place under a directory. *)
Lemma write_entries_result (es : list (option string * string))
    (fs fs' : filesystem) :
  NoDup es.*2 ->
  write_entries es fs = Ok fs' ->
  forall c f, (c, f) ∈ es ->
    fs' !! os_path_dirname (os_path_join "wrappers" f) = Some Dir /\
    fs' !! os_path_join "wrappers" f = Some (File (wrapper_content c f)).
Proof.
  revert fs. induction es as [|[c0 f0] es IH]; intros fs Hnd Hrun c f Hin.
  { by apply elem_of_nil in Hin. }
  simpl in Hrun. apply bind_Ok in Hrun as (fs1 & H1 & Hrun).
  rewrite fmap_cons in Hnd. apply NoDup_cons in Hnd as [Hnot Hnd].
  apply elem_of_cons in Hin as [[= -> ->]|Hin].
  - split.
    + eapply write_entries_dir; [done|]. by eapply write_wrapper_parent.
    + eapply write_entries_other; [done..|]. by eapply write_wrapper_content.
  - by eapply IH.
Qed.

(** The path of the wrapper of a plain name is the name under
    [wrappers/], and is plain. *)
Lemma plain_not_absolute (f : string) : plain f = true -> startswith f "/" = false.
Proof.
  destruct f as [|c f]; [done|]. cbn [startswith]. rewrite startswith_nil, andb_true_r.
  destruct (Ascii.eqb_spec "/" c) as [<-|]; [|done].
  unfold plain. rewrite split_partition. cbn [partition startswith].
  by rewrite Ascii.eqb_refl, startswith_nil.
Qed.

Lemma os_path_join_plain (f : string) :
  plain f = true ->
  os_path_join "wrappers" f = "wrappers/" +:+ f /\ plain ("wrappers/" +:+ f) = true.
Proof.
  intros Hf. split.
  - unfold os_path_join. by rewrite (plain_not_absolute _ Hf).
  - unfold plain in *. rewrite split_partition.
    change ("wrappers/" +:+ f) with ("wrappers" +:+ String "/" f).
    rewrite partition_char_append by reflexivity.
    cbn [forallb]. by rewrite Hf.
Qed.

(** C8. For every (predicate, file) entry of a table of plain file
    names, a run of the generator that succeeds passes through the
    writing of that entry's wrapper: the entries before it are written,
    then the file at [os.path.join("wrappers", file)], which is
    ["wrappers/" + file], a plain path, is given exactly the content the
    specification states (the banner line, a blank line, and the
    include, alone when the predicate is [None] and between
    [#if predicate] and [#endif /* predicate */] otherwise), then the
    entries after it are written. That content is what the run leaves at
    the path unless a later entry names the same file. *)
Theorem wrapper_written (sources : list (option string * list string))
    (fs fs' : filesystem) (before after : list (option string * string))
    (predicate : option string) (file : string) :
  plain_names sources ->
  generate sources fs = Ok fs' ->
  entries sources = (before ++ (predicate, file) :: after)%list ->
  exists fs1 fs2,
    write_entries before fs = Ok fs1 /\
    write_wrapper predicate file fs1 = Ok fs2 /\
    write_entries after fs2 = Ok fs' /\
    os_path_join "wrappers" file = "wrappers/" +:+ file /\
    plain ("wrappers/" +:+ file) = true /\
    fs2 !! ("wrappers/" +:+ file)
      = Some (File (wrapper_content predicate file)) /\
    (file ∉ after.*2 ->
     fs' !! ("wrappers/" +:+ file)
       = Some (File (wrapper_content predicate file))) /\
    wrapper_content predicate file
      = match predicate with
        | None =>
            BANNER +:+ newline +:+ newline +:+
            "#include <" +:+ file +:+ ">" +:+ newline
        | Some p =>
            BANNER +:+ newline +:+ newline +:+
            "#if " +:+ p +:+ newline +:+
            "#include <" +:+ file +:+ ">" +:+ newline +:+
            "#endif /* " +:+ p +:+ " */" +:+ newline
        end.
Proof.
  intros Hplain Hrun Hes. unfold plain_names in Hplain. rewrite Hes in Hplain.
  rewrite fmap_app, fmap_cons in Hplain.
  apply Forall_app in Hplain as [_ [Hfile _]%Forall_cons]. cbn [snd] in Hfile.
  destruct (os_path_join_plain _ Hfile) as [Hjoin Hpath].
  rewrite generate_entries, Hes in Hrun.
  apply write_entries_app in Hrun as (fs1 & H1 & Hrun).
  simpl in Hrun. apply bind_Ok in Hrun as (fs2 & H2 & Hrun).
  exists fs1, fs2. rewrite <-Hjoin. repeat split; try done.
  - by rewrite Hjoin.
  - by eapply write_wrapper_content.
  - intros Hnot. eapply write_entries_other; [done..|].
    by eapply write_wrapper_content.
  - unfold wrapper_content. destruct predicate as [p|]; simpl unlines;
      by rewrite ?append_assoc, ?append_nil_r.
Qed.

(** C9. For every table whose file paths are pairwise distinct, a second
    run of the generator on what a first run has left succeeds and
    leaves the very same file system: the same files, directories and
    contents. *)
Theorem generate_idempotent (sources : list (option string * list string))
    (fs fs1 : filesystem) :
  NoDup (entries sources).*2 ->
  generate sources fs = Ok fs1 ->
  generate sources fs1 = Ok fs1.
Proof.
  intros Hnd Hrun. rewrite generate_entries in *.
  apply write_entries_fixed. intros c f Hin.
  by eapply write_entries_result.
Qed.

(** The script's own table has pairwise distinct files. *)
Lemma QNNPACK_SOURCES_NoDup : NoDup (entries QNNPACK_SOURCES).*2.
Proof. apply (bool_decide_unpack _). vm_compute. exact I. Qed.

Lemma main_returns : main ∅ = Ok (from_Ok ∅ (main ∅)).
Proof. apply Ok_from_Ok. vm_compute. reflexivity. Qed.

(** The script runs to its end from an empty directory, and leaves the
    two wrappers the specification gives as examples. *)
Example main_from_scratch :
  exists fs,
    main ∅ = Ok fs /\
    fs !! "wrappers/q8conv/4x8-aarch32-neon.S"
      = Some (File ("/* Auto-generated by generate-wrappers.py script. Do not modify */"
                    +:+ newline +:+ newline
                    +:+ "#if defined(__arm__)" +:+ newline
                    +:+ "#include <q8conv/4x8-aarch32-neon.S>" +:+ newline
                    +:+ "#endif /* defined(__arm__) */" +:+ newline)) /\
    fs !! "wrappers/x8lut/scalar.c"
      = Some (File ("/* Auto-generated by generate-wrappers.py script. Do not modify */"
                    +:+ newline +:+ newline
                    +:+ "#include <x8lut/scalar.c>" +:+ newline)).
Proof.
  exists (from_Ok ∅ (main ∅)). split; [exact main_returns|].
  split; vm_compute; reflexivity.
Qed.

(** The script's own table has plain file names. *)
Lemma QNNPACK_SOURCES_plain : plain_names QNNPACK_SOURCES.
Proof. apply (bool_decide_unpack _). vm_compute. exact I. Qed.

Lemma wrapper_written_witness :
  let before := firstn 76 (entries QNNPACK_SOURCES) in
  let after := skipn 77 (entries QNNPACK_SOURCES) in
  let fs' := from_Ok ∅ (generate QNNPACK_SOURCES ∅) in
  plain_names QNNPACK_SOURCES /\
  generate QNNPACK_SOURCES ∅ = Ok fs' /\
  entries QNNPACK_SOURCES
    = (before ++ (Some "defined(__arm__)", "q8conv/4x8-aarch32-neon.S") :: after)%list /\
  fs' !! "wrappers/q8conv/4x8-aarch32-neon.S"
    = Some (File (wrapper_content (Some "defined(__arm__)") "q8conv/4x8-aarch32-neon.S")).
Proof.
  cbv zeta.
  assert (entries QNNPACK_SOURCES
          = (firstn 76 (entries QNNPACK_SOURCES)
             ++ (Some "defined(__arm__)", "q8conv/4x8-aarch32-neon.S")
             :: skipn 77 (entries QNNPACK_SOURCES))%list) as Hes
    by (vm_compute; reflexivity).
  split; [exact QNNPACK_SOURCES_plain|].
  split; [exact main_returns|]. split; [exact Hes|].
  destruct (wrapper_written QNNPACK_SOURCES ∅ _ _ _ _ _
              QNNPACK_SOURCES_plain main_returns Hes)
    as (fs1 & fs2 & _ & _ & _ & _ & _ & _ & Hlast & _).
  apply Hlast. apply (bool_decide_unpack _). vm_compute. exact I.
Defined.

Lemma generate_idempotent_witness :
  let fs1 := from_Ok ∅ (generate QNNPACK_SOURCES ∅) in
  NoDup (entries QNNPACK_SOURCES).*2 /\
  generate QNNPACK_SOURCES ∅ = Ok fs1 /\
  generate QNNPACK_SOURCES fs1 = Ok fs1.
Proof.
  cbv zeta. split; [exact QNNPACK_SOURCES_NoDup|]. split; [exact main_returns|].
  exact (generate_idempotent QNNPACK_SOURCES ∅ _ QNNPACK_SOURCES_NoDup main_returns).
Defined.

End GenerateWrapperFacts.

(** ** Further properties of the string builtins *)

Module PyStrMore.
Import PyStr PyStrFacts.

Lemma last_append_char (s : string) (c : ascii) :
  last (s +:+ String c "") = Some c.
Proof.
  induction s as [|a s IH]; [done|]. rewrite append_cons. cbn [last].
  rewrite IH. by destruct s.
Qed.

Lemma last_cons (c : ascii) (s : string) : exists x, last (String c s) = Some x.
Proof.
  revert c. induction s as [|a s IH]; intros c; [by exists c|].
  destruct (IH a) as [x Hx]. exists x. by rewrite <-Hx.
Qed.

Lemma last_cons_ne (s : string) : s ≠ "" -> exists x, last s = Some x.
Proof. destruct s as [|c s]; [done|]. intros _. apply last_cons. Qed.

Lemma init_append_char (s : string) (c : ascii) :
  init (s +:+ String c "") = s.
Proof.
  induction s as [|a s IH]; [done|]. rewrite append_cons. cbn [init].
  rewrite IH. by destruct s.
Qed.

Lemma init_last (s : string) (c : ascii) :
  last s = Some c -> s = init s +:+ String c "".
Proof.
  induction s as [|a s IH]; [done|]. destruct s as [|b s].
  - by intros [= ->].
  - intros H. change (init (String a (String b s))) with (String a (init (String b s))).
    rewrite append_cons. f_equal. by apply IH.
Qed.

Lemma first_line_no_newline (s : string) :
  contains s newline = false -> first_line s = s.
Proof.
  induction s as [|a s IH]; [done|]. cbn [contains first_line].
  intros [Ha Hs]%orb_false_elim. cbn [startswith newline] in Ha.
  rewrite startswith_nil, andb_true_r in Ha. rewrite Ascii.eqb_sym, Ha.
  by rewrite IH.
Qed.

Lemma contains_append_r (s p : string) : contains (s +:+ p) p = true.
Proof.
  induction s as [|a s IH].
  - rewrite append_nil_l. destruct p; cbn [contains]; [done|].
    assert (startswith (String a p) (String a p) = true) as ->; [|done].
    apply startswith_spec. exists "". by rewrite append_nil_r.
  - rewrite append_cons. cbn [contains]. by rewrite IH, orb_true_r.
Qed.

Lemma contains_append_false (s p sep : string) :
  contains (s +:+ p) sep = false -> contains p sep = false.
Proof.
  induction s as [|a s IH]; [done|]. rewrite append_cons. cbn [contains].
  intros [_ H]%orb_false_elim. by apply IH.
Qed.

Lemma drop_length_append (a b : string) : drop (String.length a) (a +:+ b) = b.
Proof. induction a as [|x a IH]; [done|]. by rewrite append_cons. Qed.

(** [partition] cuts the text at an occurrence of the separator. *)
Lemma partition_Some (s sep a b : string) :
  partition s sep = Some (a, b) -> s = a +:+ sep +:+ b.
Proof.
  revert a. induction s as [|c s IH]; intros a; cbn [partition].
  - destruct (startswith "" sep) eqn:Hs; [|done]. intros [= <- <-].
    apply startswith_spec in Hs as [r Hr]. rewrite append_nil_l.
    destruct sep; [done | by rewrite append_cons in Hr].
  - destruct (startswith (String c s) sep) eqn:Hs.
    + intros [= <- <-]. apply startswith_spec in Hs as [r Hr].
      rewrite append_nil_l, Hr. by rewrite drop_length_append.
    + destruct (partition s sep) as [[a' b']|]; [|done]. intros [= <- <-].
      rewrite append_cons. f_equal. by apply IH.
Qed.

Lemma take_length_append (a b : string) : take (String.length a) (a +:+ b) = a.
Proof.
  induction a as [|x a IH]; [by destruct b|]. rewrite append_cons. cbn [String.length take].
  by rewrite IH.
Qed.

Lemma take_pred_append (a b : string) :
  a ≠ "" -> take (String.length a - 1) (a +:+ b) = init a.
Proof.
  induction a as [|x a IH]; [done|]. intros _. destruct a as [|y a].
  - cbn [String.length Nat.sub take]. by destruct b.
  - replace (String.length (String x (String y a)) - 1)%nat
      with (S (String.length (String y a) - 1)) by (cbn [String.length]; lia).
    rewrite append_cons. cbn [take]. rewrite IH by done. done.
Qed.

Lemma length_append (a b : string) :
  String.length (a +:+ b) = (String.length a + String.length b)%nat.
Proof. induction a as [|x a IH]; [done|]. rewrite append_cons. cbn. by rewrite IH. Qed.

(** [rindex] finds an occurrence of the character after which there is
    no other. *)
Lemma rindex_Some (s : string) (c : ascii) (j : nat) :
  rindex s c = Some j ->
  exists a r,
    s = a +:+ String c r /\ String.length a = j /\
    contains r (String c "") = false.
Proof.
  revert j. induction s as [|x s IH]; intros j; [done|]. cbn [rindex].
  destruct (rindex s c) as [i|] eqn:Hi.
  - intros [= <-]. destruct (IH i eq_refl) as (a & r & -> & <- & Hr).
    exists (String x a), r. by rewrite append_cons.
  - destruct (Ascii.eqb_spec x c) as [->|_]; [|done]. intros [= <-].
    exists "", s. split; [done|]. split; [done|].
    clear IH. induction s as [|y s IH]; [done|]. cbn [rindex] in Hi.
    destruct (rindex s c) eqn:Hs; [done|].
    destruct (Ascii.eqb_spec y c) as [->|Hne]; [done|].
    cbn [contains startswith]. rewrite startswith_nil, andb_true_r.
    apply Ascii.eqb_neq in Hne. rewrite Ascii.eqb_sym, Hne. by apply IH.
Qed.

End PyStrMore.

(** ** Further properties of the schema parser *)

Module NativeParseMore.
Import PyStr PyStrFacts PyStrMore ResultFacts NativeParse NativeParseFacts.

(** *** [parse_default] *)

(** The only default values that are refused are [true] and [false]. *)
Theorem parse_default_raises (s : string) (e : exn) :
  parse_default s = Raise e <->
  (s = "true" /\ e = RuntimeError_use_True) \/
  (s = "false" /\ e = RuntimeError_use_False).
Proof.
  unfold parse_default.
  destruct (String.eqb_spec s "True") as [->|_]; [split; [done | by intros [[[=] _]|[[=] _]]]|].
  destruct (String.eqb_spec s "False") as [->|_]; [split; [done | by intros [[[=] _]|[[=] _]]]|].
  destruct (String.eqb_spec s "true") as [->|Ht].
  { split; [intros [= <-]; by left | by intros [[_ ->]|[[=] _]]]. }
  destruct (String.eqb_spec s "false") as [->|Hf].
  { split; [intros [= <-]; by right | by intros [[[=] _]|[_ ->]]]. }
  assert (forall v : default_value,
            Ok v = Raise e <->
            (s = "true" /\ e = RuntimeError_use_True) \/
            (s = "false" /\ e = RuntimeError_use_False)) as Hok.
  { intros v. split; [done | by intros [[? _]|[? _]]]. }
  repeat (match goal with |- context [if ?b then _ else _] => destruct b end; [apply Hok|]).
  destruct (PyNum.int s); [apply Hok|]. destruct (PyNum.float s); apply Hok.
Qed.

(** A list in brackets, on one line, keeps its contents between braces. *)
Theorem parse_default_list (body : string) :
  contains body newline = false ->
  parse_default ("[" +:+ body +:+ "]") = Ok (DStr ("{" +:+ body +:+ "}")).
Proof.
  intros Hnl. unfold parse_default. rewrite !append_cons, !append_nil_l.
  cbn [String.eqb Ascii.eqb Bool.eqb].
  destruct (String.eqb_spec (body +:+ "]") "]") as [Hb|_].
  - destruct body as [|c body]; [done|].
    rewrite append_cons in Hb. injection Hb as _ Hb. by destruct body.
  - unfold match_bracket_list. cbn [startswith drop Ascii.eqb Bool.eqb andb].
    rewrite startswith_nil.
    assert (contains (body +:+ "]") newline = false) as Hnl'.
    { clear -Hnl. induction body as [|c body IH]; [done|].
      rewrite append_cons. cbn [contains] in *.
      apply orb_false_elim in Hnl as [Hc Hb]. rewrite (IH Hb), orb_false_r.
      cbn [startswith newline] in *. rewrite startswith_nil in *. done. }
    rewrite (first_line_no_newline _ Hnl'), contains_append_r.
    unfold inner. cbn [drop]. by rewrite init_append_char.
Qed.

Lemma parse_default_list_witness :
  contains "0, 1" newline = false /\
  parse_default "[0, 1]" = Ok (DStr "{0, 1}").
Proof. split; [reflexivity|]. exact (parse_default_list "0, 1" eq_refl). Defined.

Lemma digit_not_space (c : ascii) :
  isdigit c = true -> PyNum.isspace_num c = false.
Proof.
  unfold isdigit, PyNum.isspace_num. cbv zeta.
  intros [H1%Nat.leb_le H2%Nat.leb_le]%andb_true_iff.
  assert ((nat_of_ascii c <=? 13)%nat = false) as -> by (apply Nat.leb_gt; lia).
  assert ((nat_of_ascii c =? 32)%nat = false) as -> by (apply Nat.eqb_neq; lia).
  assert ((nat_of_ascii c =? 133)%nat = false) as -> by (apply Nat.eqb_neq; lia).
  assert ((nat_of_ascii c =? 160)%nat = false) as -> by (apply Nat.eqb_neq; lia).
  by rewrite andb_false_r.
Qed.

Lemma digit_other (c k : ascii) :
  isdigit c = true -> isdigit k = false -> Ascii.eqb c k = false.
Proof. intros Hc Hk. apply Ascii.eqb_neq. intros ->. congruence. Qed.

Lemma rstrip_num_digits (s : string) :
  all_digits s = true -> PyNum.rstrip_num s = s.
Proof.
  induction s as [|c s IH]; [done|]. cbn [all_digits PyNum.rstrip_num].
  intros [Hc Hs]%andb_true_iff. by rewrite (digit_not_space _ Hc), IH.
Qed.

Lemma int_body_digits (s : string) (acc : N) (after_digit : bool) :
  all_digits s = true ->
  s ≠ "" \/ after_digit = true ->
  PyNum.int_body acc after_digit s = Some (digits_value acc s).
Proof.
  revert acc after_digit. induction s as [|c s IH]; intros acc after_digit.
  - intros _ [?| ->]; done.
  - cbn [all_digits PyNum.int_body digits_value].
    intros [Hc Hs]%andb_true_iff _. rewrite Hc. apply IH; [done | by right].
Qed.

Lemma count_digits_all (s : string) :
  all_digits s = true -> PyNum.count_digits s = N.of_nat (String.length s).
Proof.
  induction s as [|c s IH]; [done|]. cbn [all_digits PyNum.count_digits String.length].
  intros [Hc Hs]%andb_true_iff. rewrite Hc, (IH Hs). lia.
Qed.

(** [int] of a text of digits: their value, or ValueError when there are
    more of them than [int] reads. *)
Lemma int_all_digits (s : string) :
  s ≠ "" -> all_digits s = true ->
  PyNum.int s =
    if (N.of_nat (String.length s) <=? 4300)%N
    then Some (Z.of_N (digits_value 0 s))
    else None.
Proof.
  intros Hne Hd. destruct s as [|c s]; [done|].
  pose proof Hd as [Hc Hs]%andb_true_iff.
  pose proof (digit_other c) as Hk. specialize (Hk) with (1 := Hc).
  unfold PyNum.int. cbn [PyNum.lstrip_num].
  rewrite (digit_not_space _ Hc), rstrip_num_digits by done.
  rewrite !Hk by reflexivity.
  unfold PyNum.int_digits, PyNum.int_max_str_digits.
  rewrite (count_digits_all _ Hd), N.ltb_antisym.
  destruct (N.of_nat (String.length (String c s)) <=? 4300)%N; [|done].
  cbn [negb]. by rewrite int_body_digits by (done || by left).
Qed.

Lemma skip_digits_all (s : string) :
  all_digits s = true -> PyNum.skip_digits s = "".
Proof.
  induction s as [|c s IH]; [done|]. cbn [all_digits PyNum.skip_digits].
  intros [Hc Hs]%andb_true_iff. by rewrite Hc, (IH Hs).
Qed.

(** [float] of a text of digits reads it, whatever its length. *)
Lemma float_all_digits (s : string) :
  s ≠ "" -> all_digits s = true -> PyNum.float s = Some s.
Proof.
  intros Hne Hd. destruct s as [|c s]; [done|].
  pose proof Hd as [Hc Hs]%andb_true_iff.
  pose proof (digit_other c) as Hk. specialize (Hk) with (1 := Hc).
  unfold PyNum.float. cbn [PyNum.lstrip_num].
  rewrite (digit_not_space _ Hc), rstrip_num_digits by done.
  unfold PyNum.drop_sign, PyNum.is_sign. rewrite !Hk by reflexivity. cbn [orb].
  unfold PyNum.float_body, PyNum.digitpart. rewrite Hc, (skip_digits_all _ Hd).
  by destruct (_ || _).
Qed.

(** A default value written with decimal digits is the integer they
    denote, as long as there are no more digits than [int] reads, 4300;
    with more digits [int] raises ValueError and the value is the float
    that [float] reads from them. *)
Theorem parse_default_digits (s : string) :
  s ≠ "" -> all_digits s = true ->
  parse_default s =
    if (N.of_nat (String.length s) <=? 4300)%N
    then Ok (DInt (Z.of_N (digits_value 0 s)))
    else Ok (DFloat s).
Proof.
  intros Hne Hd. pose proof (int_all_digits s Hne Hd) as Hint.
  pose proof (float_all_digits s Hne Hd) as Hfloat.
  destruct s as [|c s]; [done|].
  pose proof Hd as [Hc Hs]%andb_true_iff.
  pose proof (digit_other c) as Hk. specialize (Hk) with (1 := Hc).
  unfold parse_default, match_bracket_list. cbn [String.eqb startswith].
  rewrite (Ascii.eqb_sym "["), !Hk by reflexivity. cbn [andb].
  rewrite Hint, Hfloat.
  by destruct (N.of_nat (String.length (String c s)) <=? 4300)%N.
Qed.

Lemma parse_default_digits_witness :
  "42" ≠ "" /\ all_digits "42" = true /\ parse_default "42" = Ok (DInt 42).
Proof.
  split; [done|]. split; [reflexivity|].
  exact (parse_default_digits "42" ltac:(done) eq_refl).
Defined.

(** *** The arguments *)

Lemma indexed_pieces_bounds (pieces : list string) (arg_idx : nat) :
  Forall (fun p => (arg_idx <= p.1.1)%nat) (indexed_pieces arg_idx pieces).
Proof.
  revert arg_idx. induction pieces as [|arg pieces IH]; intros arg_idx; [constructor|].
  cbn [indexed_pieces]. apply Forall_app. split.
  - destruct (map strip (rsplit1 arg " ")) as [|x [|y [|z l]]]; repeat constructor.
  - eapply Forall_impl; [apply IH|]. intros p Hp. cbn in Hp. lia.
Qed.

Lemma is_separator_two (arg t name : string) :
  map strip (rsplit1 arg " ") = [t; name] -> is_separator arg = false.
Proof. unfold is_separator. by intros ->. Qed.

(** The loop sets [kwarg_only] on the arguments that come after a
    separator, and meets at most one separator. *)
Lemma parse_arguments_loop_kwarg (is_out_fn : bool) (func_return : list Return)
    (pieces : list string) (arg_idx : nat) (kwarg_only : bool)
    (acc arguments : list Argument) :
  parse_arguments_loop is_out_fn func_return arg_idx pieces kwarg_only acc = Ok arguments ->
  exists new,
    arguments = (acc ++ new)%list /\
    Forall2 (fun p a =>
               (arg_idx <= p.1.1)%nat /\
               a_kwarg_only a
               = kwarg_only || existsb is_separator (firstn (p.1.1 - arg_idx) pieces))
            (indexed_pieces arg_idx pieces) new /\
    (length (filter (fun p => is_separator p = true) pieces)
     + (if kwarg_only then 1 else 0) <= 1)%nat.
Proof.
  revert arg_idx kwarg_only acc.
  induction pieces as [|arg pieces IH]; intros arg_idx kwarg_only acc;
    cbn [parse_arguments_loop indexed_pieces].
  - intros [= <-]. exists []. rewrite app_nil_r. repeat split; [constructor|].
    cbn. destruct kwarg_only; lia.
  - rewrite filter_cons.
    destruct (map strip (rsplit1 arg " ")) as [|x [|y [|z l]]] eqn:Hsplit; try done.
    + destruct (String.eqb x "*") eqn:Hx; [|done].
      intros (_ & Hkw%assert_Ok & H)%bind_Ok. apply negb_true_iff in Hkw. subst kwarg_only.
      apply IH in H as (new & -> & Hnew & Hcount).
      assert (is_separator arg = true) as Hsep
        by (unfold is_separator; by rewrite Hsplit, Hx).
      exists new. split; [done|]. rewrite decide_True by done. cbn [app length].
      split; [|lia].
      eapply Forall2_impl; [exact Hnew|]. intros p a [Hle Hk]. split; [lia|].
      rewrite Hk. replace (p.1.1 - arg_idx)%nat with (S (p.1.1 - S arg_idx)) by lia.
      cbn [firstn existsb orb]. by rewrite Hsep.
    + intros (a & Ha & H)%bind_Ok. apply IH in H as (new & -> & Hnew & Hcount).
      exists (a :: new). split; [by rewrite <-app_assoc|].
      pose proof (is_separator_two _ _ _ Hsplit) as Hsep.
      rewrite decide_False by (by rewrite Hsep). split; [|done].
      cbn [app]. constructor.
      * split; [done|]. cbn [fst snd]. rewrite Nat.sub_diag. cbn [firstn existsb].
        rewrite orb_false_r. by apply parse_argument_Ok in Ha as (_ & _ & _ & ? & _).
      * eapply Forall2_impl; [exact Hnew|]. intros p a' [Hle Hk]. split; [lia|].
        rewrite Hk. replace (p.1.1 - arg_idx)%nat with (S (p.1.1 - S arg_idx)) by lia.
        cbn [firstn existsb]. by rewrite Hsep.
Qed.

(** An argument is keyword-only exactly when a separator [*] comes
    before its piece, and a list that is accepted has at most one
    separator. *)
Theorem kwarg_only_after_separator (args : string) (func_decl : func_record)
    (func_name : string) (func_return : list Return) (inplace : bool)
    (arguments : list Argument) :
  parse_arguments args func_decl func_name func_return inplace = Ok arguments ->
  (String.length (strip args) =? 0)%nat = false ->
  Forall2 (fun p a =>
             a_kwarg_only a
             = existsb is_separator (firstn p.1.1 (split args ", ")))
          (argument_pieces args) arguments /\
  (length (filter (fun p => is_separator p = true) (split args ", ")) <= 1)%nat.
Proof.
  intros H Hargs. apply parse_arguments_Ok in H as [H _]; [|done].
  apply parse_arguments_loop_kwarg in H as (new & -> & H & Hcount).
  rewrite app_nil_l. split; [|lia].
  eapply Forall2_impl; [exact H|]. intros p a [_ Hk].
  by rewrite Hk, Nat.sub_0_r.
Qed.

Lemma kwarg_only_after_separator_witness :
  let args := "Tensor self, *, bool upper=True" in
  let arguments := from_Ok [] (parse_arguments args (just_func "") "f" [] false) in
  parse_arguments args (just_func "") "f" [] false = Ok arguments /\
  (String.length (strip args) =? 0)%nat = false /\
  Forall2 (fun p a =>
             a_kwarg_only a
             = existsb is_separator (firstn p.1.1 (split args ", ")))
          (argument_pieces args) arguments.
Proof.
  cbv zeta.
  assert (parse_arguments "Tensor self, *, bool upper=True" (just_func "") "f" [] false
          = Ok (from_Ok []
                  (parse_arguments "Tensor self, *, bool upper=True" (just_func "") "f" [] false)))
    as Hrun by (apply Ok_from_Ok; vm_compute; reflexivity).
  split; [exact Hrun|]. split; [vm_compute; reflexivity|].
  exact (proj1 (kwarg_only_after_separator _ _ _ _ _ _ Hrun
                  ltac:(vm_compute; reflexivity))).
Defined.

Lemma partition_char_before (c : ascii) (s a b : string) :
  partition s (String c "") = Some (a, b) -> contains a (String c "") = false.
Proof.
  revert a. induction s as [|x s IH]; intros a; cbn [partition].
  - done.
  - destruct (startswith (String x s) (String c "")) eqn:Hs;
      [intros [= <- _]; reflexivity|].
    destruct (partition s (String c "")) as [[a' b']|]; [|done].
    intros [= <- <-]. cbn [contains].
    cbn [startswith] in *. rewrite startswith_nil in *. rewrite Hs.
    by apply IH.
Qed.

(** The stored name of an argument has no [=], and the argument has a
    default exactly when the text after its type has one. *)
Theorem argument_names_and_defaults (args : string) (func_decl : func_record)
    (func_name : string) (func_return : list Return) (inplace : bool)
    (arguments : list Argument) :
  parse_arguments args func_decl func_name func_return inplace = Ok arguments ->
  (String.length (strip args) =? 0)%nat = false ->
  Forall2 (fun p a =>
             contains (a_name a) "=" = false /\
             (a_default a = None <-> contains p.2 "=" = false) /\
             (contains p.2 "=" = false -> a_name a = p.2))
          (argument_pieces args) arguments.
Proof.
  intros H Hargs. apply parse_arguments_Ok in H as [H _]; [|done].
  apply parse_arguments_loop_Ok in H as (new & -> & H). rewrite app_nil_l.
  eapply Forall2_impl; [exact H|].
  intros [[i t] name] a [kw Ha]. cbn [fst snd] in *.
  unfold parse_argument in Ha. destruct (annotated_type t) as [t' annotation].
  apply bind_Ok in Ha as ([name' default] & Hd & Ha).
  apply bind_Ok in Ha as (typ & _ & Ha).
  destruct typ as [|typ0 [|]]; [done| |done].
  apply bind_Ok in Ha as ([type size] & _ & Ha). injection Ha as <-. cbn.
  unfold name_and_default in Hd.
  destruct (partition name "=") as [[ns0 ns1]|] eqn:Hp.
  - apply bind_Ok in Hd as (d & _ & [= <- <-]).
    pose proof (partition_Some_contains _ _ _ _ Hp) as Hc. rewrite Hc.
    split; [by eapply partition_char_before|]. by split.
  - injection Hd as <- <-.
    assert (contains name "=" = false) as Hc by (by rewrite partition_contains, Hp).
    rewrite Hc. by repeat split.
Qed.

Lemma argument_names_and_defaults_witness :
  let args := "Tensor self, Scalar alpha=1" in
  let arguments := from_Ok [] (parse_arguments args (just_func "") "f" [] false) in
  parse_arguments args (just_func "") "f" [] false = Ok arguments /\
  (String.length (strip args) =? 0)%nat = false /\
  Forall2 (fun p a =>
             contains (a_name a) "=" = false /\
             (a_default a = None <-> contains p.2 "=" = false) /\
             (contains p.2 "=" = false -> a_name a = p.2))
          (argument_pieces args) arguments.
Proof.
  cbv zeta.
  assert (parse_arguments "Tensor self, Scalar alpha=1" (just_func "") "f" [] false
          = Ok (from_Ok []
                  (parse_arguments "Tensor self, Scalar alpha=1" (just_func "") "f" [] false)))
    as Hrun by (apply Ok_from_Ok; vm_compute; reflexivity).
  split; [exact Hrun|]. split; [vm_compute; reflexivity|].
  exact (argument_names_and_defaults _ _ _ _ _ _ Hrun ltac:(vm_compute; reflexivity)).
Defined.

Lemma span_digits_append (d r : string) (c : ascii) :
  all_digits d = true -> isdigit c = false ->
  span_digits (d +:+ String c r) = (d, String c r).
Proof.
  intros Hd Hc. induction d as [|x d IH].
  - rewrite append_nil_l. cbn [span_digits]. by rewrite Hc.
  - cbn [all_digits] in Hd. apply andb_true_iff in Hd as [Hx Hd].
    rewrite append_cons. cbn [span_digits]. by rewrite Hx, IH.
Qed.

Lemma rstrip_char_append_other (c x : ascii) (s : string) :
  x ≠ c -> rstrip_char c (s +:+ String x "") = s +:+ String x "".
Proof.
  intros Hne. induction s as [|a s IH].
  - rewrite append_nil_l. cbn [rstrip_char].
    apply Ascii.eqb_neq in Hne. by rewrite Hne.
  - rewrite append_cons. cbn [rstrip_char]. rewrite IH.
    destruct s; by rewrite ?append_cons, andb_false_r.
Qed.

Lemma endswith_append_char (c x : ascii) (s : string) :
  endswith (s +:+ String x "") (String c "") = Ascii.eqb x c.
Proof.
  induction s as [|a s IH].
  - rewrite append_nil_l. cbn [endswith String.eqb]. by destruct (Ascii.eqb x c).
  - rewrite append_cons. cbn [endswith]. rewrite IH.
    assert (String.eqb (String a (s +:+ String x "")) (String c "") = false) as ->; [|done].
    apply String.eqb_neq. intros [= _ H]. by destruct s.
Qed.

(** An argument of type [int[N]] is stored as an [IntList] of size [N],
    which is not nullable. *)
Theorem fixed_size_list (is_out_fn : bool) (func_return : list Return)
    (kwarg_only : bool) (arg_idx : nat) (digits name : string) (a : Argument) :
  digits ≠ "" -> all_digits digits = true ->
  parse_argument is_out_fn func_return kwarg_only arg_idx
    ("int[" +:+ digits +:+ "]") name = Ok a ->
  a_type a = "IntList" /\ a_size a = Some (digits_value 0 digits) /\
  a_is_nullable a = false /\ a_annotation a = None.
Proof.
  intros Hne Hd. unfold parse_argument, annotated_type, get_annotation.
  rewrite !append_cons, append_nil_l. cbn [first_line Ascii.eqb Bool.eqb startswith andb].
  cbn [String.eqb Ascii.eqb Bool.eqb].
  intros ([name' default] & _ & H)%bind_Ok. revert H.
  unfold sanitize_types. cbn [first].
  change (String "i" (String "n" (String "t" (String "[" (digits +:+ "]")))))
    with ("int[" +:+ (digits +:+ "]")).
  rewrite <-append_assoc, last_append_char. cbn [Ascii.eqb Bool.eqb andb bind].
  unfold sanitize_type. rewrite append_assoc, !append_cons, append_nil_l.
  cbn [String.eqb Ascii.eqb Bool.eqb].
  change (String "i" (String "n" (String "t" (String "[" (digits +:+ "]")))))
    with ("int[" +:+ (digits +:+ "]")).
  rewrite <-append_assoc, rstrip_char_append_other, endswith_append_char by done.
  unfold match_int_size. rewrite append_assoc, !append_cons, append_nil_l.
  cbn [startswith Ascii.eqb Bool.eqb andb drop].
  rewrite startswith_nil, span_digits_append by done.
  pose proof (int_all_digits digits Hne Hd) as Hint.
  apply String.eqb_neq in Hne. rewrite Hne. cbn [negb andb startswith Ascii.eqb Bool.eqb].
  rewrite Hint. destruct (N.of_nat (String.length digits) <=? 4300)%N; [|done].
  cbn [bind]. rewrite N2Z.id. intros [= <-]. by repeat split.
Qed.

Lemma fixed_size_list_witness :
  let a := from_Ok
             {| a_type := ""; a_name := ""; a_is_nullable := false; a_size := None;
                a_default := None; a_output := false; a_kwarg_only := false;
                a_annotation := None; a_field_name := None |}
             (parse_argument false [] false 0 "int[2]" "kernel_size") in
  "2" ≠ "" /\ all_digits "2" = true /\
  parse_argument false [] false 0 "int[2]" "kernel_size" = Ok a /\
  a_type a = "IntList" /\ a_size a = Some 2%N.
Proof.
  cbv zeta. split; [done|]. split; [reflexivity|].
  assert (parse_argument false [] false 0 "int[2]" "kernel_size"
          = Ok (from_Ok
                  {| a_type := ""; a_name := ""; a_is_nullable := false; a_size := None;
                     a_default := None; a_output := false; a_kwarg_only := false;
                     a_annotation := None; a_field_name := None |}
                  (parse_argument false [] false 0 "int[2]" "kernel_size")))
    as Hrun by (apply Ok_from_Ok; vm_compute; reflexivity).
  split; [exact Hrun|].
  destruct (fixed_size_list false [] false 0 "2" "kernel_size" _ ltac:(done) eq_refl Hrun)
    as (Ht & Hs & _).
  by split.
Defined.

(** *** The return slots *)

Lemma parse_return_argument_Ok (inplace multiple_args : bool) (arg_idx : nat)
    (arg : string) (r : Return) :
  parse_return_argument inplace multiple_args arg_idx arg = Ok r ->
  r_field_name r = Some (r_name r) \/
  (r_field_name r = None /\
   ((inplace = true /\ r_name r = "self" /\ r_type r = "Tensor" /\
     is_mutable (r_annotation r) = true) \/
    r_name r = result_name multiple_args arg_idx)).
Proof.
  unfold parse_return_argument.
  destruct (map strip (rsplit1 arg " ")) as [|t [|name [|z l]]]; try done.
  - destruct (get_annotation t) as [t' annotation].
    destruct (String.eqb_spec t' "Tensor") as [->|_]; [destruct inplace|]; cbn [andb].
    + intros ([[[t0 name0] fn0] ann0] & H & [= <-])%bind_Ok.
      apply bind_Ok in H as (_ & Hm%assert_Ok & [= <- <- <- <-]).
      right. split; [done|]. left. by repeat split.
    + intros [= <-]. right. split; [done|]. by right.
    + intros [= <-]. right. split; [done|]. by right.
  - destruct (get_annotation t) as [t' annotation]. intros [= <-]. by left.
Qed.

Lemma parse_return_loop_Ok (inplace multiple_args : bool) (pieces : list string)
    (arg_idx : nat) (acc rets : list Return) :
  parse_return_loop inplace multiple_args arg_idx pieces acc = Ok rets ->
  exists new,
    rets = (acc ++ new)%list /\
    Forall2 (fun p r => parse_return_argument inplace multiple_args p.1 p.2 = Ok r)
            (zip (seq arg_idx (length pieces)) pieces) new.
Proof.
  revert arg_idx acc. induction pieces as [|arg pieces IH]; intros arg_idx acc;
    cbn [parse_return_loop].
  - intros [= <-]. exists []. by rewrite app_nil_r.
  - intros (r & Hr & H)%bind_Ok. apply IH in H as (new & -> & Hnew).
    exists (r :: new). split; [by rewrite <-app_assoc|]. by constructor.
Qed.

Lemma split_comma_cons (s : string) : exists x xs, split s ", " = x :: xs.
Proof. rewrite split_partition. destruct (partition s ", ") as [[l r]|]; eauto. Qed.

(** A return declaration gives one return slot for each of its pieces,
    and at least one. A slot that has a field name has it as its name; a
    slot without one is named [self], for the [Tensor] of an in-place
    function, which is then annotated as mutable, or [result], or
    [result] and its position when there are several slots. *)
Theorem return_slots (return_decl : string) (inplace : bool)
    (func_decl : func_record) (rets : list Return) :
  parse_return_arguments return_decl inplace func_decl = Ok rets ->
  rets ≠ [] /\
  forall i r,
    rets !! i = Some r ->
    r_field_name r = Some (r_name r) \/
    (r_field_name r = None /\
     ((inplace = true /\ r_name r = "self" /\ r_type r = "Tensor" /\
       is_mutable (r_annotation r) = true) \/
      r_name r = result_name (1 <? length rets)%nat i)).
Proof.
  unfold parse_return_arguments.
  destruct (first return_decl) as [c0|]; [|done].
  destruct (last return_decl) as [cl|]; [|done].
  set (decl := if Ascii.eqb c0 "(" && Ascii.eqb cl ")" then inner return_decl else return_decl).
  intros (new & -> & H)%parse_return_loop_Ok. rewrite app_nil_l.
  destruct (split_comma_cons decl) as (x & xs & Hsplit). rewrite Hsplit in *.
  pose proof (Forall2_length _ _ _ H) as Hlen.
  rewrite length_zip, length_seq, Nat.min_id in Hlen.
  split; [intros ->; done|].
  intros i r Hi. rewrite <-Hlen.
  destruct (Forall2_lookup_r _ _ _ _ _ H Hi) as ([j arg] & Hj & Hr).
  apply lookup_zip_Some in Hj as [Hj _]. apply lookup_seq in Hj as [-> _].
  by apply parse_return_argument_Ok in Hr.
Qed.

Lemma return_slots_witness :
  let rets := from_Ok [] (parse_return_arguments "(Tensor, Tensor indices)" false (just_func "")) in
  parse_return_arguments "(Tensor, Tensor indices)" false (just_func "") = Ok rets /\
  rets ≠ [] /\ map r_name rets = ["result0"; "indices"].
Proof.
  cbv zeta.
  assert (parse_return_arguments "(Tensor, Tensor indices)" false (just_func "")
          = Ok (from_Ok []
                  (parse_return_arguments "(Tensor, Tensor indices)" false (just_func ""))))
    as Hrun by (apply Ok_from_Ok; vm_compute; reflexivity).
  split; [exact Hrun|].
  split; [exact (proj1 (return_slots _ _ _ _ Hrun))|]. vm_compute. reflexivity.
Defined.

Lemma no_space_rpartition (s : string) :
  contains s " " = false -> rpartition_char s " " = None.
Proof.
  induction s as [|c s IH]; [done|]. cbn [contains rpartition_char].
  intros [Hc Hs]%orb_false_elim. rewrite (IH Hs).
  cbn [startswith] in Hc. rewrite startswith_nil, andb_true_r in Hc.
  by rewrite Ascii.eqb_sym, Hc.
Qed.

Lemma no_space_no_comma_space (s : string) :
  contains s " " = false -> contains s ", " = false.
Proof.
  induction s as [|c s IH]; [done|]. cbn [contains].
  intros [Hc Hs]%orb_false_elim. rewrite (IH Hs), orb_false_r.
  cbn [startswith]. destruct s as [|d s]; [by rewrite andb_false_r|].
  cbn [contains] in Hs. apply orb_false_elim in Hs as [Hd _].
  cbn [startswith] in *. rewrite startswith_nil in *. rewrite Hd. by rewrite andb_false_r.
Qed.

(** An in-place function cannot return a [Tensor] that is not annotated
    as mutable: the return declaration is refused. *)
Theorem inplace_return_must_be_mutable (return_decl : string)
    (func_decl : func_record) (annotation : option string) :
  startswith return_decl "Tensor" = true ->
  contains return_decl " " = false ->
  get_annotation (strip return_decl) = ("Tensor", annotation) ->
  is_mutable annotation = false ->
  parse_return_arguments return_decl true func_decl
  = Raise AssertionError_return_mutable.
Proof.
  intros Hstart Hspace Hann Hmut. unfold parse_return_arguments.
  apply startswith_spec in Hstart as [rest ->].
  rewrite !append_cons, append_nil_l in *. cbn [first].
  destruct (last_cons "T" ("ensor" +:+ rest)) as [cl Hlast].
  rewrite !append_cons, append_nil_l in Hlast. rewrite Hlast.
  cbn [Ascii.eqb Bool.eqb andb].
  rewrite split_partition, (contains_false_partition _ _ (no_space_no_comma_space _ Hspace)).
  cbn [length Nat.ltb Nat.leb parse_return_loop].
  unfold parse_return_argument, rsplit1. rewrite (no_space_rpartition _ Hspace).
  cbn [map]. rewrite Hann. cbn [String.eqb Ascii.eqb Bool.eqb andb].
  by rewrite Hmut.
Qed.

Lemma inplace_return_must_be_mutable_witness :
  startswith "Tensor" "Tensor" = true /\
  contains "Tensor" " " = false /\
  get_annotation (strip "Tensor") = ("Tensor", None) /\
  is_mutable None = false /\
  parse_return_arguments "Tensor" true (just_func "add_(Tensor self) -> Tensor")
  = Raise AssertionError_return_mutable.
Proof.
  repeat (split; [vm_compute; reflexivity|]).
  apply (inplace_return_must_be_mutable "Tensor" _ None); vm_compute; reflexivity.
Defined.

(** *** The sparse flag *)

Lemma any_sparse_characters (l : list ascii) :
  any_sparse (map (fun c => YStr (String c EmptyString)) l) = Ok false.
Proof.
  induction l as [|c l IH]; [done|]. cbn [map any_sparse mentions_sparse bind].
  assert (contains (String c "") "Sparse" = false) as ->; [|exact IH].
  cbn [contains startswith]. by rewrite andb_false_r.
Qed.

Lemma any_sparse_keys (items : list (string * yaml)) :
  any_sparse (map (fun kv => YStr (fst kv)) items)
  = Ok (existsb (fun kv => contains (fst kv) "Sparse") items).
Proof.
  induction items as [|[k v] items IH]; [done|].
  cbn [map any_sparse mentions_sparse bind existsb fst].
  destruct (contains k "Sparse"); [done | exact IH].
Qed.

(** A declaration without a ['dispatch'] key is never sparse, whatever its
    name: the function's name stands for the dispatch table and is
    searched character by character. With a dispatch table the declaration
    is sparse exactly when a key of the table mentions [Sparse]. *)
Theorem sparse_dispatch :
  (forall func_decl d,
     compile_record func_decl = Ok d ->
     f_dispatch func_decl = None ->
     d_aten_sparse d = false /\
     d_type_method_definition_dispatch d = YStr (d_name d))
  /\
  (forall func_decl d items,
     compile_record func_decl = Ok d ->
     f_dispatch func_decl = Some (YMap items) ->
     d_aten_sparse d = existsb (fun kv => contains (fst kv) "Sparse") items).
Proof.
  split.
  - intros func_decl d H Hd. unfold compile_record in H.
    apply bind_Ok in H as (sg & _ & H). apply bind_Ok in H as (arguments & _ & H).
    rewrite Hd in H.
    change (default (YStr (s_name sg)) None) with (YStr (s_name sg)) in H.
    unfold has_sparse_dispatches in H.
    rewrite any_sparse_characters in H. by injection H as <-.
  - intros func_decl d items H Hd. unfold compile_record in H.
    apply bind_Ok in H as (sg & _ & H). apply bind_Ok in H as (arguments & _ & H).
    rewrite Hd in H.
    change (default (YStr (s_name sg)) (Some (YMap items))) with (YMap items) in H.
    unfold has_sparse_dispatches in H.
    rewrite any_sparse_keys in H. by injection H as <-.
Qed.

Lemma sparse_dispatch_witness :
  let func_decl := just_func "to_Sparse(Tensor self) -> Tensor" in
  let d := from_Ok blank_declaration (compile_record func_decl) in
  compile_record func_decl = Ok d /\
  f_dispatch func_decl = None /\
  d_aten_sparse d = false.
Proof.
  cbv zeta.
  assert (compile_record (just_func "to_Sparse(Tensor self) -> Tensor")
          = Ok (from_Ok blank_declaration
                  (compile_record (just_func "to_Sparse(Tensor self) -> Tensor"))))
    as Hrun by (apply Ok_from_Ok; vm_compute; reflexivity).
  split; [exact Hrun|]. split; [reflexivity|].
  exact (proj1 (proj1 sparse_dispatch _ _ Hrun eq_refl)).
Defined.

(** *** [run] *)

Lemma run_document_Ok (funcs : list func_record) (acc ds : list Declaration) :
  run_document funcs acc = Ok ds <->
  exists new, ds = (acc ++ new)%list /\
              Forall2 (fun f d => compile_record f = Ok d) funcs new.
Proof.
  revert acc. induction funcs as [|f funcs IH]; intros acc; cbn [run_document].
  - split.
    + intros [= <-]. exists []. by rewrite app_nil_r.
    + intros (new & -> & ->%Forall2_nil_inv_l). by rewrite app_nil_r.
  - split.
    + intros (d & Hd & H)%bind_Ok. apply IH in H as (new & -> & Hnew).
      exists (d :: new). split; [by rewrite <-app_assoc|]. by constructor.
    + intros (new & -> & (d & new' & Hd & Hnew & ->)%Forall2_cons_inv_l).
      rewrite Hd. cbn [bind]. apply IH. exists new'. by rewrite <-app_assoc.
Qed.

Lemma run_documents_Ok (documents : list (list func_record))
    (acc ds : list Declaration) :
  run_documents documents acc = Ok ds <->
  exists new, ds = (acc ++ new)%list /\
              Forall2 (fun f d => compile_record f = Ok d) (concat documents) new.
Proof.
  revert acc. induction documents as [|funcs documents IH]; intros acc;
    cbn [run_documents concat].
  - split.
    + intros [= <-]. exists []. by rewrite app_nil_r.
    + intros (new & -> & ->%Forall2_nil_inv_l). by rewrite app_nil_r.
  - split.
    + intros (ds1 & (new1 & -> & H1)%run_document_Ok & H)%bind_Ok.
      apply IH in H as (new & -> & Hnew).
      exists (new1 ++ new)%list. split; [by rewrite <-app_assoc|].
      by apply Forall2_app.
    + intros (new & -> & (new1 & new2 & H1 & H2 & ->)%Forall2_app_inv_l).
      assert (run_document funcs acc = Ok (acc ++ new1)%list) as ->
        by (apply run_document_Ok; eauto).
      cbn [bind]. apply IH. exists new2. by rewrite <-app_assoc.
Qed.

(** [run] returns declarations exactly when every record of every
    document compiles, and they are then the declarations of the records,
    one for each, in the order of the documents and of their records. *)
Theorem run_in_order (documents : list (list func_record)) (ds : list Declaration) :
  run documents = Ok ds <->
  Forall2 (fun f d => compile_record f = Ok d) (concat documents) ds.
Proof.
  unfold run. rewrite run_documents_Ok. split.
  - by intros (new & -> & H).
  - intros H. by exists ds.
Qed.

Lemma run_document_Raise (funcs : list func_record) (acc : list Declaration) (e : exn) :
  run_document funcs acc = Raise e <->
  exists before f after,
    funcs = (before ++ f :: after)%list /\
    Forall (fun g => is_Ok (compile_record g) = true) before /\
    compile_record f = Raise e.
Proof.
  revert acc. induction funcs as [|f funcs IH]; intros acc; cbn [run_document].
  - split; [done|]. intros (before & g & after & H & _). by destruct before.
  - destruct (compile_record f) as [d|e'] eqn:Hf; cbn [bind].
    + rewrite IH. split.
      * intros (before & g & after & -> & Hb & Hg).
        exists (f :: before), g, after. split; [done|]. split; [|done].
        constructor; [by rewrite Hf | done].
      * intros ([|f' before] & g & after & Heq & Hb & Hg); injection Heq as <- ->.
        -- congruence.
        -- apply Forall_cons in Hb as [_ Hb]. eauto 6.
    + split.
      * intros [= ->]. exists [], f, funcs. by repeat split.
      * intros ([|f' before] & g & after & Heq & Hb & Hg); injection Heq as <- ->.
        -- congruence.
        -- apply Forall_cons in Hb as [Hb _]. by rewrite Hf in Hb.
Qed.

(** [run] stops at the first record that does not compile and raises
    what the compilation of that record raises. *)
Theorem run_fail_fast (documents : list (list func_record)) (e : exn) :
  run documents = Raise e <->
  exists before f after,
    concat documents = (before ++ f :: after)%list /\
    Forall (fun g => is_Ok (compile_record g) = true) before /\
    compile_record f = Raise e.
Proof.
  assert (forall acc, run_documents documents acc = run_document (concat documents) acc) as H.
  { induction documents as [|funcs documents IH]; intros acc; [done|].
    cbn [run_documents concat]. revert acc.
    induction funcs as [|f funcs IHf]; intros acc; cbn [run_document app].
    - apply IH.
    - destruct (compile_record f); cbn [bind]; [apply IHf | done]. }
  unfold run. rewrite H. apply run_document_Raise.
Qed.

(** *** The parts of a signature *)

(** A signature that is accepted is a function declaration, an arrow and
    a return declaration without an arrow; the declaration, with the
    white space around it removed, is the function name, which has no
    parenthesis, and the argument list between parentheses. *)
Theorem split_signature_parts (text fn_name args return_decl : string) :
  split_signature text = Ok (fn_name, args, return_decl) ->
  exists l r,
    text = l +:+ "->" +:+ r /\
    contains r "->" = false /\
    strip l = fn_name +:+ "(" +:+ args +:+ ")" /\
    contains fn_name "(" = false /\
    return_decl = strip r.
Proof.
  unfold split_signature. rewrite partition_contains.
  destruct (partition text "->") as [[l r]|] eqn:Hp; [|done].
  rewrite split_partition, Hp, split_partition.
  destruct (partition r "->") as [[l' r']|] eqn:Hr.
  { by destruct (split_cons r') as (x & xs & ->). }
  cbn [map]. unfold split_declaration, split1.
  destruct (partition (strip l) "(") as [[fn rest]|] eqn:Hd; [|done].
  destruct (last rest) as [c|] eqn:Hlast; [|done].
  intros (_ & Hc%assert_Ok & [= <- <- <-])%bind_Ok.
  apply Ascii.eqb_eq in Hc as ->.
  exists l, r. split; [by apply partition_Some|].
  split; [by rewrite partition_contains, Hr|].
  split; [|split; [by eapply partition_char_before | done]].
  rewrite (partition_Some _ _ _ _ Hd). by rewrite (init_last _ _ Hlast) at 1.
Qed.

Lemma split_signature_parts_witness :
  split_signature "abs(Tensor self) -> Tensor" = Ok ("abs", "Tensor self", "Tensor") /\
  exists l r,
    "abs(Tensor self) -> Tensor" = l +:+ "->" +:+ r /\
    contains r "->" = false /\
    strip l = "abs" +:+ "(" +:+ "Tensor self" +:+ ")" /\
    contains "abs" "(" = false /\
    "Tensor" = strip r.
Proof.
  assert (split_signature "abs(Tensor self) -> Tensor" = Ok ("abs", "Tensor self", "Tensor"))
    as H by (vm_compute; reflexivity).
  split; [exact H|]. exact (split_signature_parts _ _ _ _ H).
Defined.

(** *** Annotations *)

Lemma tensor_prefix (r b x : string) :
  "Tensor" +:+ r = b +:+ String "(" x -> exists b', b = "Tensor" +:+ b'.
Proof.
  intros H. rewrite !append_cons, append_nil_l in H.
  do 6 (destruct b as [|? b]; [by rewrite append_nil_l in H|];
        rewrite append_cons in H; injection H as <- H).
  by exists b.
Qed.

(** When [get_annotation] finds no annotation it returns the type as it
    is. When it finds one, the first line of the text is the type, which
    starts with [Tensor], an opening parenthesis, the annotation, which is
    not empty, a closing parenthesis, and a rest without a closing
    parenthesis. *)
Theorem get_annotation_parts (t ty : string) :
  (get_annotation t = (ty, None) -> ty = t) /\
  (forall annotation,
     get_annotation t = (ty, Some annotation) ->
     exists rest,
       first_line t = ty +:+ "(" +:+ annotation +:+ ")" +:+ rest /\
       startswith ty "Tensor" = true /\
       annotation ≠ "" /\
       contains rest ")" = false).
Proof.
  unfold get_annotation.
  destruct (startswith (first_line t) "Tensor") eqn:Hstart; [|by split; [intros [=] | intros ? [=]]].
  destruct (rindex (first_line t) ")") as [j|] eqn:Hj; [|by split; [intros [=] | intros ? [=]]].
  destruct (rindex (take (j - 1) (first_line t)) "(") as [i|] eqn:Hi;
    [|by split; [intros [=] | intros ? [=]]].
  split; [by intros [=]|]. intros annotation [= <- <-].
  apply rindex_Some in Hj as (a & rest & Hl & <- & Hrest). rewrite Hl in *.
  destruct (decide (a = "")) as [->|Ha]; [done|].
  rewrite take_pred_append in Hi by done.
  apply rindex_Some in Hi as (b & c & Hinit & <- & _).
  destruct (last_cons_ne a Ha) as [x Hx]. pose proof (init_last _ _ Hx) as Ha'.
  rewrite Hinit in Ha'.
  assert (a = b +:+ String "(" (c +:+ String x "")) as -> by (by rewrite Ha', append_assoc).
  exists rest. set (ann := c +:+ String x "") in *.
  assert ((b +:+ String "(" ann) +:+ String ")" rest
          = b +:+ String "(" (ann +:+ String ")" rest)) as Hl2
    by (by rewrite append_assoc, append_cons).
  rewrite Hl2 in *. rewrite take_length_append.
  assert (drop (String.length b + 1) (b +:+ String "(" (ann +:+ String ")" rest))
          = ann +:+ String ")" rest) as ->.
  { replace (String.length b + 1)%nat with (String.length (b +:+ "("))
      by (by rewrite length_append).
    assert (b +:+ String "(" (ann +:+ String ")" rest)
            = (b +:+ "(") +:+ (ann +:+ String ")" rest)) as ->
      by (by rewrite append_assoc, append_cons, append_nil_l).
    apply drop_length_append. }
  assert (String.length (b +:+ String "(" ann) - String.length b - 1
          = String.length ann)%nat as ->
    by (rewrite length_append; cbn [String.length]; lia).
  rewrite take_length_append.
  split; [by rewrite !append_cons, append_nil_l|].
  split; [|split; [subst ann; by destruct c | done]].
  apply startswith_spec in Hstart as [r Hr].
  symmetry in Hr. apply tensor_prefix in Hr as [b' ->].
  apply startswith_spec. by exists b'.
Qed.

Lemma get_annotation_parts_witness :
  get_annotation "Tensor(a!)" = ("Tensor", Some "a!") /\
  exists rest,
    first_line "Tensor(a!)" = "Tensor" +:+ "(" +:+ "a!" +:+ ")" +:+ rest /\
    startswith "Tensor" "Tensor" = true /\ "a!" ≠ "" /\ contains rest ")" = false.
Proof.
  assert (get_annotation "Tensor(a!)" = ("Tensor", Some "a!")) as H
    by (vm_compute; reflexivity).
  split; [exact H|]. exact (proj2 (get_annotation_parts _ _) _ H).
Defined.

(** *** Output marks of other functions *)

Lemma no_output_marks_witness :
  let arguments :=
    from_Ok [] (parse_arguments "Tensor self, Tensor other" (just_func "") "add" [] false) in
  parse_arguments "Tensor self, Tensor other" (just_func "") "add" [] false = Ok arguments /\
  endswith "add" "_out" = false /\
  Forall (fun a => a_output a = false) arguments.
Proof.
  cbv zeta.
  assert (parse_arguments "Tensor self, Tensor other" (just_func "") "add" [] false
          = Ok (from_Ok []
                  (parse_arguments "Tensor self, Tensor other" (just_func "") "add" [] false)))
    as Hrun by (apply Ok_from_Ok; vm_compute; reflexivity).
  split; [exact Hrun|]. split; [reflexivity|].
  exact (no_output_marks _ _ _ _ _ _ Hrun eq_refl).
Defined.

End NativeParseMore.

(** ** Further properties of the wrapper generator *)

Module GenerateWrapperMore.
Import PyStr PyStrFacts PyStrMore ResultFacts GenerateWrapper GenerateWrapperFacts.

(** What [os_mkdir], and so [os_makedirs], add is a directory at a path
    where there was nothing. *)
Lemma os_mkdir_adds (p q : string) (fs fs' : filesystem) (n : node) :
  os_mkdir p fs = Ok fs' -> fs' !! q = Some n ->
  fs !! q = Some n \/ (n = Dir /\ fs !! q = None).
Proof.
  intros [Hp ->]%os_mkdir_Ok. destruct (decide (p = q)) as [->|Hne].
  - rewrite lookup_insert_eq. intros [= <-]. by right.
  - rewrite lookup_insert_ne by done. by left.
Qed.

Lemma mkdir_missing_adds (ps : list string) (q : string) (fs fs' : filesystem) (n : node) :
  mkdir_missing ps fs = Ok fs' -> fs' !! q = Some n ->
  fs !! q = Some n \/ (n = Dir /\ fs !! q = None).
Proof.
  revert fs. induction ps as [|p ps IH]; intros fs; cbn [mkdir_missing].
  - intros [= ->]. by left.
  - destruct (fs !! p) eqn:Hp; [apply IH|].
    intros (fs1 & H1 & H)%bind_Ok Hq.
    destruct (IH _ H Hq) as [Hq1|[-> Hq1]].
    + by eapply os_mkdir_adds.
    + right. split; [done|]. apply os_mkdir_Ok in H1 as [_ ->].
      by apply lookup_insert_None in Hq1 as [? _].
Qed.

Lemma os_makedirs_adds (name q : string) (fs fs' : filesystem) (n : node) :
  os_makedirs name fs = Ok fs' -> fs' !! q = Some n ->
  fs !! q = Some n \/ (n = Dir /\ fs !! q = None).
Proof.
  unfold os_makedirs. intros (fs1 & H1 & H)%bind_Ok Hq.
  destruct (os_mkdir_adds _ _ _ _ _ H Hq) as [Hq1|[-> Hq1]].
  - by eapply mkdir_missing_adds.
  - right. split; [done|].
    destruct (fs !! q) as [m|] eqn:Hfs; [|done].
    apply mkdir_missing_subseteq in H1.
    eapply lookup_weaken in Hfs; [|done]. congruence.
Qed.

Lemma write_wrapper_adds (condition : option string) (filename q : string)
    (fs fs' : filesystem) (n : node) :
  write_wrapper condition filename fs = Ok fs' -> fs' !! q = Some n ->
  fs !! q = Some n \/ (n = Dir /\ fs !! q = None) \/
  (q = os_path_join "wrappers" filename /\ n = File (wrapper_content condition filename)).
Proof.
  intros H Hq. pose proof H as (fs0 & _ & _ & _ & ->)%write_wrapper_Ok.
  destruct (decide (os_path_join "wrappers" filename = q)) as [<-|Hne].
  - rewrite lookup_insert_eq in Hq. injection Hq as <-. by right; right.
  - rewrite lookup_insert_ne in Hq by done.
    unfold write_wrapper in H. apply bind_Ok in H as (fs0' & H0 & H).
    apply bind_Ok in H as (fs1 & [_ ->]%open_w_Ok & H).
    rewrite print_wrapper_content in H. injection H as H.
    assert (fs0' !! q = Some n) as Hq0.
    { assert (<[os_path_join "wrappers" filename:=File (wrapper_content condition filename)]> fs0' !! q
              = <[os_path_join "wrappers" filename:=File (wrapper_content condition filename)]> fs0 !! q)
        as Heq by (by rewrite H).
      rewrite !lookup_insert_ne in Heq by done. by rewrite Heq. }
    destruct (negb _) in H0.
    + destruct (os_makedirs_adds _ _ _ _ _ H0 Hq0) as [?|?]; [by left | by right; left].
    + injection H0 as ->. by left.
Qed.

(** For a table of plain file names and a plain path: what a run
    leaves at the path is what was there, a new directory, or the
    wrapper of an entry of the table. *)
Theorem generate_adds (sources : list (option string * list string))
    (fs fs' : filesystem) (q : string) (n : node) :
  plain_names sources ->
  plain q = true ->
  generate sources fs = Ok fs' ->
  fs' !! q = Some n ->
  fs !! q = Some n \/ (n = Dir /\ fs !! q = None) \/
  exists condition filename,
    (condition, filename) ∈ entries sources /\
    q = "wrappers/" +:+ filename /\
    n = File (wrapper_content condition filename).
Proof.
  intros Hplain _. unfold plain_names in Hplain.
  rewrite generate_entries. revert Hplain. generalize (entries sources) as es. intros es.
  revert fs. induction es as [|[c f] es IH]; intros fs Hplain; cbn [write_entries].
  - intros [= ->] Hq. by left.
  - rewrite fmap_cons in Hplain. apply Forall_cons in Hplain as [Hf Hplain]. cbn [snd] in Hf.
    destruct (os_path_join_plain _ Hf) as [Hjoin _].
    intros (fs1 & H1 & H)%bind_Ok Hq.
    destruct (IH _ Hplain H Hq) as [Hq1|[[-> Hq1]|(c' & f' & Hin & -> & ->)]].
    + destruct (write_wrapper_adds _ _ _ _ _ _ H1 Hq1) as [?|[?|[-> ->]]];
        [by left | by right; left |].
      right; right. exists c, f. split; [by left | done].
    + right; left. split; [done|].
      destruct (fs !! q) as [m|] eqn:Hfs; [|done].
      destruct m as [|content].
      * eapply write_wrapper_dir in Hfs; [|done]. congruence.
      * apply write_wrapper_Ok in H1 as (fs0 & Hsub & _ & _ & ->).
        eapply lookup_weaken in Hfs; [|done].
        destruct (decide (os_path_join "wrappers" f = q)) as [<-|Hne].
        -- by rewrite lookup_insert_eq in Hq1.
        -- rewrite lookup_insert_ne in Hq1 by done. congruence.
    + right; right. exists c', f'. split; [by right | done].
Qed.

Lemma generate_adds_witness :
  let fs' := from_Ok ∅ (generate [(None, ["a/x.c"])] ∅) in
  plain_names [(None, ["a/x.c"])] /\
  plain "wrappers/a" = true /\
  generate [(None, ["a/x.c"])] ∅ = Ok fs' /\
  fs' !! "wrappers/a" = Some Dir /\
  ((∅ : filesystem) !! "wrappers/a" = Some Dir \/
   (Dir = Dir /\ (∅ : filesystem) !! "wrappers/a" = None) \/
   exists condition filename,
     (condition, filename) ∈ entries [(None, ["a/x.c"])] /\
     "wrappers/a" = "wrappers/" +:+ filename /\
     Dir = File (wrapper_content condition filename)).
Proof.
  cbv zeta.
  assert (plain_names [(None, ["a/x.c"])]) as Hplain
    by (apply (bool_decide_unpack _); vm_compute; exact I).
  assert (plain "wrappers/a" = true) as Hq' by (vm_compute; reflexivity).
  assert (generate [(None, ["a/x.c"])] ∅ = Ok (from_Ok ∅ (generate [(None, ["a/x.c"])] ∅)))
    as Hrun by (apply Ok_from_Ok; vm_compute; reflexivity).
  assert (from_Ok ∅ (generate [(None, ["a/x.c"])] ∅) !! "wrappers/a" = Some Dir)
    as Hq by (vm_compute; reflexivity).
  split; [exact Hplain|]. split; [exact Hq'|]. split; [exact Hrun|]. split; [exact Hq|].
  exact (generate_adds _ _ _ _ _ Hplain Hq' Hrun Hq).
Defined.

Lemma write_entries_keeps (es : list (option string * string)) (q : string)
    (fs fs' : filesystem) (x : node) :
  write_entries es fs = Ok fs' ->
  (forall f, f ∈ es.*2 -> q ≠ os_path_join "wrappers" f) ->
  fs !! q = Some x -> fs' !! q = Some x.
Proof.
  revert fs. induction es as [|[c g] es IH]; intros fs; cbn [write_entries].
  - by intros [= ->].
  - intros (fs1 & H1 & H)%bind_Ok Hnot Hq.
    eapply IH; [done| |].
    + intros f Hf. apply Hnot. rewrite fmap_cons. by right.
    + eapply write_wrapper_other; [done| |done].
      apply Hnot. rewrite fmap_cons. by left.
Qed.

(** For a table of plain file names and a plain path: a run changes
    nothing that was there, the paths of its wrappers apart, and no
    directory at all. *)
Theorem generate_keeps (sources : list (option string * list string))
    (fs fs' : filesystem) (q : string) (x : node) :
  plain_names sources ->
  plain q = true ->
  generate sources fs = Ok fs' ->
  fs !! q = Some x ->
  (x = Dir \/ forall f, f ∈ (entries sources).*2 -> q ≠ "wrappers/" +:+ f) ->
  fs' !! q = Some x.
Proof.
  intros Hplain _. rewrite generate_entries. intros H Hq [->|Hnot].
  - by eapply write_entries_dir.
  - eapply write_entries_keeps; [done| |done].
    intros f Hf. unfold plain_names in Hplain. rewrite Forall_forall in Hplain.
    destruct (os_path_join_plain _ (Hplain f Hf)) as [-> _]. by apply Hnot.
Qed.

Lemma generate_keeps_witness :
  let fs : filesystem := {["README" := File "notes"]} in
  let fs' := from_Ok ∅ (generate [(None, ["a/x.c"])] fs) in
  plain_names [(None, ["a/x.c"])] /\
  plain "README" = true /\
  generate [(None, ["a/x.c"])] fs = Ok fs' /\
  fs !! "README" = Some (File "notes") /\
  fs' !! "README" = Some (File "notes").
Proof.
  cbv zeta.
  assert (plain_names [(None, ["a/x.c"])]) as Hplain
    by (apply (bool_decide_unpack _); vm_compute; exact I).
  assert (plain "README" = true) as Hq' by (vm_compute; reflexivity).
  assert (generate [(None, ["a/x.c"])] {["README" := File "notes"]}
          = Ok (from_Ok ∅ (generate [(None, ["a/x.c"])] {["README" := File "notes"]})))
    as Hrun by (apply Ok_from_Ok; vm_compute; reflexivity).
  assert (({["README" := File "notes"]} : filesystem) !! "README" = Some (File "notes"))
    as Hq by (vm_compute; reflexivity).
  split; [exact Hplain|]. split; [exact Hq'|]. split; [exact Hrun|]. split; [exact Hq|].
  apply (generate_keeps _ _ _ _ _ Hplain Hq' Hrun Hq). right.
  apply Forall_forall. vm_compute. repeat constructor. by intros [=].
Defined.

(** A run never puts a wrapper where there is a directory: it fails. *)
Theorem generate_not_over_directory (sources : list (option string * list string))
    (fs fs' : filesystem) (condition : option string) (filename : string) :
  generate sources fs = Ok fs' ->
  (condition, filename) ∈ entries sources ->
  fs !! os_path_join "wrappers" filename ≠ Some Dir.
Proof.
  rewrite generate_entries. generalize (entries sources) as es. intros es.
  revert fs. induction es as [|[c f] es IH]; intros fs; cbn [write_entries].
  - by intros _ ?%elem_of_nil.
  - intros (fs1 & H1 & H)%bind_Ok [[= -> ->]|Hin]%elem_of_cons Hdir.
    + apply write_wrapper_Ok in H1 as (fs0 & Hsub & _ & Hnd & _).
      apply Hnd. by eapply lookup_weaken.
    + eapply IH; [done..|]. by eapply write_wrapper_dir.
Qed.

Lemma generate_not_over_directory_witness :
  let fs' := from_Ok ∅ (generate [(None, ["a/x.c"])] ∅) in
  generate [(None, ["a/x.c"])] ∅ = Ok fs' /\
  (None, "a/x.c") ∈ entries [(None, ["a/x.c"])] /\
  (∅ : filesystem) !! os_path_join "wrappers" "a/x.c" ≠ Some Dir.
Proof.
  cbv zeta.
  assert (generate [(None, ["a/x.c"])] ∅ = Ok (from_Ok ∅ (generate [(None, ["a/x.c"])] ∅)))
    as Hrun by (apply Ok_from_Ok; vm_compute; reflexivity).
  assert ((None, "a/x.c") ∈ entries [(None, ["a/x.c"])]) as Hin by (vm_compute; by left).
  split; [exact Hrun|]. split; [exact Hin|].
  exact (generate_not_over_directory _ _ _ _ _ Hrun Hin).
Defined.

Lemma last_predicate_None (es : list (option string * string)) (filename : string) :
  last_predicate es filename = None <-> filename ∉ es.*2.
Proof.
  induction es as [|[c f] es IH]; cbn [last_predicate].
  - split; [intros _ ?%elem_of_nil; done | done].
  - rewrite fmap_cons, not_elem_of_cons. cbn [snd].
    destruct (last_predicate es filename) as [c'|].
    + split; [done|]. intros [_ H]. by apply IH in H.
    + destruct (String.eqb_spec f filename) as [->|Hne].
      * split; [done | by intros [? _]].
      * split; [intros _; split; [done | by apply IH] | done].
Qed.

Lemma last_predicate_elem (es : list (option string * string)) (filename : string)
    (condition : option string) :
  last_predicate es filename = Some condition -> (condition, filename) ∈ es.
Proof.
  induction es as [|[c f] es IH]; cbn [last_predicate]; [done|].
  destruct (last_predicate es filename) as [c'|].
  - intros [= <-]. right. by apply IH.
  - destruct (String.eqb_spec f filename) as [->|_]; [|done]. intros [= ->]. by left.
Qed.

Lemma write_entries_last (es : list (option string * string)) (fs fs' : filesystem)
    (filename : string) (condition : option string) :
  write_entries es fs = Ok fs' ->
  last_predicate es filename = Some condition ->
  fs' !! os_path_join "wrappers" filename
    = Some (File (wrapper_content condition filename)) /\
  fs' !! os_path_dirname (os_path_join "wrappers" filename) = Some Dir.
Proof.
  revert fs. induction es as [|[c f] es IH]; intros fs; cbn [write_entries last_predicate];
    [done|].
  intros (fs1 & H1 & H)%bind_Ok.
  destruct (last_predicate es filename) as [c'|] eqn:Hlast.
  - intros [= <-]. by eapply IH.
  - destruct (String.eqb_spec f filename) as [->|_]; [|done]. intros [= ->].
    apply last_predicate_None in Hlast. split.
    + eapply write_entries_other; [done..|]. by eapply write_wrapper_content.
    + eapply write_entries_dir; [done|]. by eapply write_wrapper_parent.
Qed.

(** Of several entries for one file the last one wins: after a run over
    a table of plain file names, the wrapper of a file, at the file's
    name under [wrappers/], has the content of the last entry of the
    table for that file, and lies in a directory. *)
Theorem generate_last_writer (sources : list (option string * list string))
    (fs fs' : filesystem) (filename : string) (condition : option string) :
  plain_names sources ->
  generate sources fs = Ok fs' ->
  last_predicate (entries sources) filename = Some condition ->
  plain ("wrappers/" +:+ filename) = true /\
  fs' !! ("wrappers/" +:+ filename)
    = Some (File (wrapper_content condition filename)) /\
  fs' !! os_path_dirname ("wrappers/" +:+ filename) = Some Dir.
Proof.
  intros Hplain Hrun Hlast. rewrite generate_entries in Hrun.
  pose proof (last_predicate_elem _ _ _ Hlast) as Hin.
  unfold plain_names in Hplain. rewrite Forall_forall in Hplain.
  destruct (os_path_join_plain filename) as [<- Hpath].
  { apply Hplain. apply list_elem_of_fmap. by exists (condition, filename). }
  split; [done|]. by eapply write_entries_last.
Qed.

Lemma generate_last_writer_witness :
  let sources := [(None, ["a/x.c"]); (Some "defined(__arm__)", ["a/x.c"])] in
  let fs' := from_Ok ∅ (generate sources ∅) in
  plain_names sources /\
  generate sources ∅ = Ok fs' /\
  last_predicate (entries sources) "a/x.c" = Some (Some "defined(__arm__)") /\
  fs' !! "wrappers/a/x.c"
    = Some (File (wrapper_content (Some "defined(__arm__)") "a/x.c")).
Proof.
  cbv zeta.
  assert (plain_names [(None, ["a/x.c"]); (Some "defined(__arm__)", ["a/x.c"])]) as Hplain
    by (apply (bool_decide_unpack _); vm_compute; exact I).
  assert (generate [(None, ["a/x.c"]); (Some "defined(__arm__)", ["a/x.c"])] ∅
          = Ok (from_Ok ∅
                  (generate [(None, ["a/x.c"]); (Some "defined(__arm__)", ["a/x.c"])] ∅)))
    as Hrun by (apply Ok_from_Ok; vm_compute; reflexivity).
  assert (last_predicate
            (entries [(None, ["a/x.c"]); (Some "defined(__arm__)", ["a/x.c"])]) "a/x.c"
          = Some (Some "defined(__arm__)")) as Hlast by (vm_compute; reflexivity).
  split; [exact Hplain|]. split; [exact Hrun|]. split; [exact Hlast|].
  exact (proj1 (proj2 (generate_last_writer _ _ _ _ _ Hplain Hrun Hlast))).
Defined.

(** Where the wrapper's path holds a file and its directory is there, a
    pass of the loop body puts the wrapper there and changes nothing
    else. *)
Lemma write_wrapper_over_file (condition : option string) (filename : string)
    (fs : filesystem) (content : string) :
  fs !! os_path_dirname (os_path_join "wrappers" filename) = Some Dir ->
  fs !! os_path_join "wrappers" filename = Some (File content) ->
  write_wrapper condition filename fs
  = Ok (<[os_path_join "wrappers" filename := File (wrapper_content condition filename)]> fs).
Proof.
  intros Hd Hf. unfold write_wrapper, os_path_isdir.
  rewrite bool_decide_eq_true_2 by done. cbn [negb bind].
  unfold open_w, check_parent. rewrite Hf, Hd.
  destruct (all_slashes _); cbn [bind]; by rewrite print_wrapper_content.
Qed.

(** A run from a state that differs from [fs1] only at wrapper paths
    still to be written, where it holds files, ends in [fs1], if [fs1]
    holds for every file the wrapper of its last entry, in a directory. *)
Lemma write_entries_converges (es : list (option string * string))
    (m fs1 : filesystem) :
  (forall f, f ∈ es.*2 ->
     fs1 !! os_path_dirname (os_path_join "wrappers" f) = Some Dir) ->
  (forall f c, last_predicate es f = Some c ->
     fs1 !! os_path_join "wrappers" f = Some (File (wrapper_content c f))) ->
  (forall q, m !! q ≠ fs1 !! q ->
     (exists f, f ∈ es.*2 /\ q = os_path_join "wrappers" f) /\
     exists content, m !! q = Some (File content)) ->
  write_entries es m = Ok fs1.
Proof.
  revert m. induction es as [|[c f] es IH]; intros m Hdirs Hlast Hdiff;
    cbn [write_entries].
  - f_equal. apply map_eq. intros q.
    destruct (decide (m !! q = fs1 !! q)) as [|Hne]; [done|].
    destruct (Hdiff q Hne) as [(f & Hf%elem_of_nil & _) _]. done.
  - assert (forall g, g ∈ ((c, f) :: es).*2 ->
              exists content, fs1 !! os_path_join "wrappers" g = Some (File content)) as Hfiles.
    { intros g Hg. destruct (last_predicate ((c, f) :: es) g) as [c'|] eqn:Hl.
      - eauto.
      - apply last_predicate_None in Hl. done. }
    assert (m !! os_path_dirname (os_path_join "wrappers" f) = Some Dir) as Hd.
    { destruct (decide (m !! os_path_dirname (os_path_join "wrappers" f)
                        = fs1 !! os_path_dirname (os_path_join "wrappers" f))) as [->|Hne].
      - apply Hdirs. rewrite fmap_cons. by left.
      - destruct (Hdiff _ Hne) as [(g & Hg & Hq) _].
        destruct (Hfiles g Hg) as [content Hcontent].
        rewrite <-Hq, Hdirs in Hcontent; [done|]. rewrite fmap_cons. by left. }
    assert (exists content, m !! os_path_join "wrappers" f = Some (File content))
      as [content Hf].
    { destruct (decide (m !! os_path_join "wrappers" f
                        = fs1 !! os_path_join "wrappers" f)) as [->|Hne].
      - apply Hfiles. rewrite fmap_cons. by left.
      - by destruct (Hdiff _ Hne) as [_ ?]. }
    rewrite (write_wrapper_over_file _ _ _ _ Hd Hf). cbn [bind].
    apply IH.
    + intros g Hg. apply Hdirs. rewrite fmap_cons. by right.
    + intros g c' Hl. apply Hlast. cbn [last_predicate]. by rewrite Hl.
    + intros q Hne. destruct (decide (os_path_join "wrappers" f = q)) as [<-|Hq].
      * rewrite lookup_insert_eq in *. split; [|eauto].
        exists f. split; [|done].
        destruct (last_predicate es f) as [c'|] eqn:Hl.
        -- apply last_predicate_elem in Hl.
           apply list_elem_of_fmap. by exists (c', f).
        -- destruct Hne. symmetry. apply Hlast. cbn [last_predicate].
           by rewrite Hl, String.eqb_refl.
      * rewrite lookup_insert_ne in * by done.
        destruct (Hdiff q Hne) as [(g & Hg & ->) Hfile]. split; [|done].
        exists g. split; [|done]. rewrite fmap_cons in Hg.
        apply elem_of_cons in Hg as [->|Hg]; [done | done].
Qed.

(** A second run on what a first run has left succeeds and changes
    nothing, also when several entries name one file. *)
Theorem generate_idempotent_always (sources : list (option string * list string))
    (fs fs1 : filesystem) :
  generate sources fs = Ok fs1 ->
  generate sources fs1 = Ok fs1.
Proof.
  rewrite !generate_entries. intros Hrun. apply write_entries_converges.
  - intros f Hf. destruct (last_predicate (entries sources) f) as [c|] eqn:Hl.
    + by eapply write_entries_last.
    + by apply last_predicate_None in Hl.
  - intros f c Hl. by eapply write_entries_last.
  - intros q Hne. done.
Qed.

Lemma generate_idempotent_always_witness :
  let sources := [(None, ["a/x.c"]); (Some "defined(__arm__)", ["a/x.c"])] in
  let fs1 := from_Ok ∅ (generate sources ∅) in
  generate sources ∅ = Ok fs1 /\ generate sources fs1 = Ok fs1.
Proof.
  cbv zeta.
  assert (generate [(None, ["a/x.c"]); (Some "defined(__arm__)", ["a/x.c"])] ∅
          = Ok (from_Ok ∅
                  (generate [(None, ["a/x.c"]); (Some "defined(__arm__)", ["a/x.c"])] ∅)))
    as Hrun by (apply Ok_from_Ok; vm_compute; reflexivity).
  split; [exact Hrun|]. exact (generate_idempotent_always _ _ _ Hrun).
Defined.

End GenerateWrapperMore.
